(** * oprofile, pp/op_bfd.cpp: symbol table construction and line lookup

  A shallow embedding of the [op_bfd] class of oprofpp: the candidate
  filter, the construction of the sorted symbol vector, the range and
  offset queries and the line-number lookup with its prologue
  work-around.  The BFD library is not part of the repository: a BFD
  handle is modelled as plain data (sections, canonical symbol table
  and the nearest-line oracle). *)

From Stdlib Require Import ZArith Lia Bool Ascii String.
From stdpp Require Import base option list sets strings sorting.

Local Open Scope Z_scope.

(** ** Machine integers *)

Module Int.

(** An unsigned integer of [bits] bits is a [Z]; storing a value into
    such a variable reduces it modulo [2 ^ bits]. *)
Definition wrap (bits x : Z) : Z := x mod 2 ^ bits.

(** [u32] and [unsigned int]. *)
Definition to_u32 (x : Z) : Z := wrap 32 x.

(** [bfd_vma], [bfd_size_type] and [size_t], taken as on a 64-bit
    host with a 64-bit BFD. *)
Definition to_u64 (x : Z) : Z := wrap 64 x.

End Int.

Import Int.

(** ** C strings *)

Module CStr.

(** A [char const *] is either the null pointer or points to a string;
    the terminating NUL is left implicit. *)
Definition cstr : Type := option string.

Definition NUL : ascii := Ascii.zero.

(** [s[i]] for [i] up to the length of [s]: position [length s] holds
    the terminator. *)
Definition char_at (s : string) (i : nat) : ascii :=
  match String.get i s with
  | Some c => c
  | None => NUL
  end.

(** [strcmp] on two valid strings: zero exactly when they are equal. *)
Definition strcmp (a b : string) : Z :=
  match String.compare a b with
  | Eq => 0
  | Lt => -1
  | Gt => 1
  end.

(** [strcmp] on pointers: undefined when either is null. *)
Definition strcmp_ptr (a b : cstr) : option Z :=
  match a, b with
  | Some a, Some b => Some (strcmp a b)
  | _, _ => None
  end.

End CStr.

Import CStr.

(** ** The BFD library, as far as op_bfd.cpp uses it *)

Module BFD.

(** Section and file flags, with the values of bfd.h. *)
Definition SEC_ALLOC : Z := 0x001.
Definition SEC_CODE : Z := 0x010.
Definition HAS_SYMS : Z := 0x10.

(** [asection]: the fields read by op_bfd.cpp. *)
Record asection : Type := mk_asection {
  sec_name : string;
  sec_flags : Z;
  sec_vma : Z;
  sec_size : Z;       (* bfd_section_size *)
  sec_filepos : Z
}.

(** [asymbol]. *)
Record asymbol : Type := mk_asymbol {
  sym_name : cstr;
  sym_section : asection;
  sym_value : Z
}.

(** What one call of [bfd_find_nearest_line] leaves behind: its return
    value and the contents of the three out-parameters. *)
Record nearest_line : Type := mk_nearest_line {
  nl_found : bool;
  nl_filename : cstr;
  nl_functionname : cstr;
  nl_line : Z
}.

(** An opened [bfd *]. *)
Record bfd : Type := mk_bfd {
  bfd_format_matches : bool;           (* bfd_check_format_matches *)
  bfd_file_flags : Z;                  (* bfd_get_file_flags *)
  bfd_sections : list asection;
  bfd_symtab_upper_bound : Z;          (* bfd_get_symtab_upper_bound *)
  bfd_symtab : list asymbol;           (* bfd_canonicalize_symtab *)
  bfd_find_nearest_line : asection -> Z -> nearest_line
}.

(** [bfd_get_section_by_name]: the first section of that name, or the
    null pointer. *)
Definition bfd_get_section_by_name (abfd : bfd) (name : string)
  : option asection :=
  List.find (fun s => String.eqb (sec_name s) name) (bfd_sections abfd).

End BFD.

Import BFD.

(** ** The candidate filter *)

Definition boring_symbols : list string :=
  [ "gcc2_compiled."%string; "_init"%string ].

(** [interesting_symbol]: true if the symbol is worth looking at. *)
Definition interesting_symbol (sym : asymbol) : bool :=
  if Z.land (sec_flags (sym_section sym)) SEC_CODE =? 0 then false
  else
    match sym_name sym with
    | None => false
    | Some name =>
        if Ascii.eqb (char_at name 0) NUL then false
        else if Ascii.eqb (char_at name 0) "." && Ascii.eqb (char_at name 1) "L"
        then false
        else if existsb (fun b => strcmp b name =? 0) boring_symbols then false
        else true
    end.

(** ** The symbol vector *)

(** [op_bfd_symbol] (oprofpp.h): the BFD symbol, its absolute virtual
    address and its size. *)
Record op_bfd_symbol : Type := mk_op_bfd_symbol {
  symbol : asymbol;
  vma : Z;
  size : Z
}.

(** [symcomp]: the comparator handed to [std::stable_sort]. *)
Definition symcomp (a b : op_bfd_symbol) : bool := vma a <? vma b.

(** The first loop of [get_symbols]: every interesting symbol of the
    canonical table is appended, with its address and a size of 0. *)
Definition push_interesting (syms : list op_bfd_symbol) (sym : asymbol)
  : list op_bfd_symbol :=
  if interesting_symbol sym then
    syms ++ [ mk_op_bfd_symbol sym
                (to_u64 (sym_value sym + sec_vma (sym_section sym))) 0 ]
  else syms.

Definition collect_symbols (bfd_syms : list asymbol) : list op_bfd_symbol :=
  foldl push_interesting [] bfd_syms.

(** [std::stable_sort (syms.begin (), syms.end (), symcomp)], as a stable
    insertion sort: an element goes in front of the first element that
    does not compare less than it, so that among equivalent elements the
    one that came first stays first.  Ascending order and stability
    leave no other result ([stable_sort_unique]). *)
Fixpoint sorted_insert (x : op_bfd_symbol) (l : list op_bfd_symbol)
  : list op_bfd_symbol :=
  match l with
  | [] => [x]
  | y :: l' => if symcomp y x then y :: sorted_insert x l' else x :: y :: l'
  end.

Definition stable_sort (l : list op_bfd_symbol) : list op_bfd_symbol :=
  foldr sorted_insert [] l.

(** [op_bfd::symbol_size], in the configuration without
    USE_ELF_INTERNAL.  [None] stands for an index outside the vector.
    The size of a vector and an index into it are kept as [nat]: neither
    reaches the range of [size_t]. *)
Definition symbol_size (syms : list op_bfd_symbol) (nr_samples : Z)
  (sym_idx : nat) : option Z :=
  s ← syms !! sym_idx;
  let sym := symbol s in
  let next :=
    if (sym_idx =? length syms - 1)%nat
    then None else symbol <$> syms !! S sym_idx in
  let start := to_u32 (sec_filepos (sym_section sym) + sym_value sym) in
  let end_ :=
    match next with
    | Some next =>
        let e := to_u32 (sym_value next) in
        to_u32 (e + sec_filepos (sym_section next))
    | None => to_u32 nr_samples
    end in
  Some (to_u32 (end_ - start)).

Definition set_size (s : op_bfd_symbol) (sz : Z) : op_bfd_symbol :=
  mk_op_bfd_symbol (symbol s) (vma s) sz.

(** The loop [syms[i].size = symbol_size (i)]. *)
Definition fill_size_at (nr_samples : Z) (syms : list op_bfd_symbol) (i : nat)
  : list op_bfd_symbol :=
  match syms !! i, symbol_size syms nr_samples i with
  | Some s, Some sz => <[ i := set_size s sz ]> syms
  | _, _ => syms
  end.

Definition fill_sizes (nr_samples : Z) (syms : list op_bfd_symbol)
  : list op_bfd_symbol :=
  foldl (fill_size_at nr_samples) syms (seq 0 (length syms)).

(** The loop that drops the second of two neighbours with the same
    address.  One unit of [fuel] is one evaluation of the loop test;
    [erase] followed by [i--] and the loop's [++i] leaves [i] in place. *)
Fixpoint drop_duplicates_loop (fuel : nat) (i : nat)
  (syms : list op_bfd_symbol) : list op_bfd_symbol :=
  match fuel with
  | O => syms
  | S fuel' =>
      if (i <? length syms)%nat then
        match syms !! i, syms !! (i - 1)%nat with
        | Some cur, Some prev =>
            if vma cur =? vma prev
            then drop_duplicates_loop fuel' i (delete i syms)
            else drop_duplicates_loop fuel' (S i) syms
        | _, _ => syms
        end
      else syms
  end.

Definition drop_duplicates (syms : list op_bfd_symbol) : list op_bfd_symbol :=
  drop_duplicates_loop (S (length syms)) 1 syms.

(** Modelled from the spec: [is_excluded_symbol] is declared outside
    op_bfd.cpp; the name is looked up, by exact string match, in the
    exclusion list supplied by the caller. *)
Definition is_excluded_symbol (excluded : list string) (name : cstr) : bool :=
  match name with
  | Some n => existsb (String.eqb n) excluded
  | None => false
  end.

(** The loop that removes the excluded symbols. *)
Fixpoint remove_excluded_loop (excluded : list string) (fuel : nat) (i : nat)
  (syms : list op_bfd_symbol) : list op_bfd_symbol :=
  match fuel with
  | O => syms
  | S fuel' =>
      match syms !! i with
      | Some s =>
          if is_excluded_symbol excluded (sym_name (symbol s))
          then remove_excluded_loop excluded fuel' i (delete i syms)
          else remove_excluded_loop excluded fuel' (S i) syms
      | None => syms
      end
  end.

Definition remove_excluded (excluded : list string)
  (syms : list op_bfd_symbol) : list op_bfd_symbol :=
  remove_excluded_loop excluded (S (length syms)) 0 syms.

(** The vector after the sort and the size loop, after the duplicate
    scan, and as [get_symbols] leaves it. *)
Definition sized_symbols (bfd_syms : list asymbol) (nr_samples : Z)
  : list op_bfd_symbol :=
  fill_sizes nr_samples (stable_sort (collect_symbols bfd_syms)).

Definition unique_symbols (bfd_syms : list asymbol) (nr_samples : Z)
  : list op_bfd_symbol :=
  drop_duplicates (sized_symbols bfd_syms nr_samples).

Definition final_symbols (bfd_syms : list asymbol) (nr_samples : Z)
  (excluded : list string) : list op_bfd_symbol :=
  remove_excluded excluded (unique_symbols bfd_syms nr_samples).

(** [op_bfd::get_symbols]: the return value and the vector [syms]. *)
Definition get_symbols (ibfd : bfd) (nr_samples : Z) (excluded : list string)
  : bool * list op_bfd_symbol :=
  if Z.land (bfd_file_flags ibfd) HAS_SYMS =? 0 then (false, [])
  else
    let size := to_u64 (bfd_symtab_upper_bound ibfd) in
    if size <? 1 then (false, [])
    else
      let nr_all_syms := Z.of_nat (length (bfd_symtab ibfd)) in
      if nr_all_syms <? 1 then (false, [])
      else
        let syms := final_symbols (bfd_symtab ibfd) nr_samples excluded in
        match syms with
        | [] => (false, syms)
        | _ :: _ => (true, syms)
        end.

(** ** The [op_bfd] object *)

(** The data members of [op_bfd].  The class is declared in oprofpp.h:
    [nr_samples] and [sect_offset] are 32-bit unsigned members (both are
    printed with [%x]), and [bfd_syms] is the canonical table of
    [ibfd]. *)
Record op_bfd : Type := mk_op_bfd {
  ibfd : bfd;
  syms : list op_bfd_symbol;
  nr_samples : Z;
  sect_offset : Z
}.

(** How a call can end: it returns, the process leaves through
    [exit (EXIT_FAILURE)] after a diagnostic, or the call has no defined
    behaviour (a null pointer is dereferenced or handed to [strcmp], a
    vector is indexed outside its bounds). *)
Inductive fatal : Type :=
| empty_image_filename
| bfd_openr_failed
| bfd_format_failure
| start_out_of_range
| end_out_of_range
| start_overflow.

Inductive outcome (A : Type) : Type :=
| Done (a : A)
| Exit (why : fatal)
| Undefined.

Arguments Done {A} a.
Arguments Exit {A} why.
Arguments Undefined {A}.

(** [op_bfd::sym_offset]. [None] stands for an index outside [syms]. *)
Definition sym_offset (b : op_bfd) (sym_index : nat) (num : Z) : option Z :=
  s ← syms b !! sym_index;
  let num := to_u32 (num - sec_filepos (sym_section (symbol s))) in
  let num := to_u32 (num - sym_value (symbol s)) in
  Some num.

(** [op_bfd::get_symbol_range]: the pair [(start, end)]. *)
Definition get_symbol_range (b : op_bfd) (sym_idx : nat) : outcome (Z * Z) :=
  match syms b !! sym_idx with
  | None => Undefined
  | Some s =>
      let sym := symbol s in
      let start := to_u32 (sym_value sym) in
      let start := to_u32 (start + sec_filepos (sym_section sym)) in
      let end_ := to_u32 (to_u64 (start + size s)) in
      let limit := to_u32 (nr_samples b + sect_offset b) in
      if start >=? limit then Exit start_out_of_range
      else if end_ >? limit then Exit end_out_of_range
      else if start >? end_ then Exit start_overflow
      else Done (start, end_)
  end.

(** [nil_symbol_index] (oprofpp.h): -1 converted to [symbol_index_t]. *)
Definition nil_symbol_index : Z := to_u64 (-1).

(** [op_bfd::symbol_index]: the loop from index [i] on, over the rest of
    the vector. [None] stands for a null name handed to [strcmp]. *)
Fixpoint symbol_index_from (rest : list op_bfd_symbol) (name : string)
  (i : Z) : option Z :=
  match rest with
  | [] => Some nil_symbol_index
  | s :: rest' =>
      c ← strcmp_ptr (sym_name (symbol s)) (Some name);
      if c =? 0 then Some i else symbol_index_from rest' name (i + 1)
  end.

Definition symbol_index (b : op_bfd) (name : string) : option Z :=
  symbol_index_from (syms b) name 0.

(** ** Line numbers *)

(** What [get_linenr] hands back: its return value and the two
    reference parameters. *)
Record linenr_result : Type := mk_linenr_result {
  lr_ret : bool;
  lr_filename : cstr;
  lr_linenr : Z
}.

(** A computation that calls [bfd_find_nearest_line]: the addresses it
    asked for, in call order, and how it ended. *)
Definition traced (A : Type) : Type := list Z * outcome A.

Definition after_probe {A : Type} (pc : Z) (m : traced A) : traced A :=
  (pc :: m.1, m.2).

(** The forward scan [for (i = 1 ; i < max_search ; ++i)], with [n]
    iterations to go.  [Done (Some r)] is the early [return ret],
    [Done None] the end of the loop. *)
Fixpoint scan_forward (lookup : Z -> nearest_line) (name : cstr) (pc : Z)
  (n : nat) (i : Z) : traced (option linenr_result) :=
  match n with
  | O => ([], Done None)
  | S n' =>
      let probe := to_u64 (pc + i) in
      let r := lookup probe in
      if nl_found r && negb (nl_line r =? 0) then
        match strcmp_ptr (nl_functionname r) name with
        | None => ([probe], Undefined)
        | Some c =>
            if c =? 0
            then ([probe],
                  Done (Some (mk_linenr_result true (nl_filename r) (nl_line r))))
            else after_probe probe (scan_forward lookup name pc n' (i + 1))
        end
      else after_probe probe (scan_forward lookup name pc n' (i + 1))
  end.

(** The search window: 16, or what is left of the section. *)
Definition max_search (pc section_size : Z) : Z :=
  if to_u64 (pc + 16) >? section_size then to_u64 (section_size - pc) else 16.

(** The work-around for a zero line number. [ret] is the verdict on the
    first lookup. *)
Definition scan_for_linenr (lookup : Z -> nearest_line) (name : cstr)
  (pc section_size : Z) (ret : bool) : traced linenr_result :=
  let n := Z.to_nat (max_search pc section_size - 1) in
  match scan_forward lookup name pc n 1 with
  | (probes, Done (Some r)) => (probes, Done r)
  | (probes, Done None) =>
      let again := lookup pc in
      (probes ++ [pc],
       Done (mk_linenr_result ret (nl_filename again) (nl_line again)))
  | (probes, Exit why) => (probes, Exit why)
  | (probes, Undefined) => (probes, Undefined)
  end.

(** [op_bfd::get_linenr]. *)
Definition get_linenr (b : op_bfd) (sym_idx : nat) (offset : Z)
  : traced linenr_result :=
  match syms b !! sym_idx, sym_offset b sym_idx offset with
  | Some s, Some off =>
      let section := sym_section (symbol s) in
      if Z.land (sec_flags section) SEC_ALLOC =? 0
      then ([], Done (mk_linenr_result false None 0))
      else
        let pc := to_u64 (off + sym_value (symbol s)) in
        if pc >=? sec_size section
        then ([], Done (mk_linenr_result false None 0))
        else
          let lookup := bfd_find_nearest_line (ibfd b) section in
          let r := lookup pc in
          let functionname := nl_functionname r in
          let '(filename, linenr, ret) :=
            if bool_decide (nl_filename r = None) || negb (nl_found r)
            then (Some ""%string, 0, false)
            else (nl_filename r, nl_line r, nl_found r) in
          let checked : option bool :=
            match ret, functionname with
            | true, Some _ =>
                c ← strcmp_ptr functionname (sym_name (symbol s));
                Some (if c =? 0 then ret else false)
            | _, _ => Some ret
            end in
          match checked with
          | None => ([pc], Undefined)
          | Some ret =>
              if linenr =? 0
              then after_probe pc
                     (scan_for_linenr lookup (sym_name (symbol s)) pc
                        (sec_size section) ret)
              else ([pc], Done (mk_linenr_result ret filename linenr))
          end
  | _, _ => ([], Undefined)
  end.

(** ** Opening an image *)

(** The sample file header read through [samples.first_header ()]. *)
Record opd_header : Type := mk_opd_header {
  is_kernel : bool;
  mtime : Z
}.

(** The file system as the constructor sees it: [op_get_fsize],
    [op_get_mtime] (op_file.h) and [bfd_openr]. *)
Record host : Type := mk_host {
  op_get_fsize : string -> Z;
  op_get_mtime : string -> Z;
  bfd_openr : string -> option bfd
}.

(** [op_bfd::open_bfd_image]: the section offset and the symbol
    vector. *)
Definition open_bfd_image (h : host) (filename : string) (is_kernel : bool)
  (nr_samples : Z) (excluded : list string)
  : outcome (bfd * Z * list op_bfd_symbol) :=
  match bfd_openr h filename with
  | None => Exit bfd_openr_failed
  | Some ibfd =>
      if negb (bfd_format_matches ibfd) then Exit bfd_format_failure
      else
        let sect_offset : outcome Z :=
          if is_kernel then
            match bfd_get_section_by_name ibfd ".text" with
            | Some sect => Done (to_u32 (sec_filepos sect))
            | None => Undefined
            end
          else Done 0 in
        match sect_offset with
        | Done sect_offset =>
            Done (ibfd, sect_offset, (get_symbols ibfd nr_samples excluded).2)
        | Exit why => Exit why
        | Undefined => Undefined
        end
  end.

(** What the constructor leaves behind: the object, whether the
    modification-time warning was printed, and the offset stored into
    the sample files by [set_sect_offset]. *)
Record opened : Type := mk_opened {
  image : op_bfd;
  mtime_warning : bool;
  samples_sect_offset : Z
}.

(** [op_bfd::op_bfd]. *)
Definition op_bfd_ctor (h : host) (header : opd_header) (filename : string)
  (excluded : list string) : outcome opened :=
  if (String.length filename =? 0)%nat then Exit empty_image_filename
  else
    let nr_samples := to_u32 (op_get_fsize h filename) in
    match open_bfd_image h filename (is_kernel header) nr_samples excluded with
    | Done (ibfd, sect_offset, syms) =>
        let newmtime := op_get_mtime h filename in
        Done (mk_opened (mk_op_bfd ibfd syms nr_samples sect_offset)
                (negb (newmtime =? mtime header))
                sect_offset)
    | Exit why => Exit why
    | Undefined => Undefined
    end.

(** ** The specification's vocabulary *)

(** A name as a C string can hold it: no NUL inside. *)
Fixpoint is_c_string (s : string) : bool :=
  match s with
  | EmptyString => true
  | String c s' => negb (Ascii.eqb c NUL) && is_c_string s'
  end.

Definition c_string_name (sym : asymbol) : Prop :=
  forall name, sym_name sym = Some name -> is_c_string name = true.

(** The section is flagged as containing executable code. *)
Definition in_code_section (sym : asymbol) : Prop :=
  Z.testbit (sec_flags (sym_section sym)) 4 = true.

(** The candidate filter in the words of the specification: a code
    section, a non-empty name, no local-label prefix, not one of the
    known markers. *)
Definition is_candidate (sym : asymbol) : Prop :=
  in_code_section sym /\
  exists name,
    sym_name sym = Some name /\
    name <> ""%string /\
    String.prefix ".L" name = false /\
    name <> "gcc2_compiled."%string /\
    name <> "_init"%string.

(** The vector entry made for a candidate. *)
Definition candidate_entry (sym : asymbol) : op_bfd_symbol :=
  mk_op_bfd_symbol sym (to_u64 (sym_value sym + sec_vma (sym_section sym))) 0.

(** The file offset at which a symbol starts, before any truncation. *)
Definition file_offset (s : op_bfd_symbol) : Z :=
  sec_filepos (sym_section (symbol s)) + sym_value (symbol s).

(** The span of a vector entry as [get_symbol_range] computes it. *)
Definition span_start (s : op_bfd_symbol) : Z :=
  to_u32 (to_u32 (sym_value (symbol s)) + sec_filepos (sym_section (symbol s))).

Definition span_end (s : op_bfd_symbol) : Z :=
  to_u32 (to_u64 (span_start s + size s)).

(** Orders on vector entries, by address. *)
Definition vma_le (a b : op_bfd_symbol) : Prop := vma a <= vma b.
Definition vma_lt (a b : op_bfd_symbol) : Prop := vma a < vma b.

(** The entries of a vector that sit at address [k], in vector order. *)
Definition at_vma (k : Z) (l : list op_bfd_symbol) : list op_bfd_symbol :=
  filter (fun s => vma s = k) l.

(** The duplicate scan as a recursion over the vector: [prev] is the
    entry last kept. *)
Fixpoint keep_first (prev : op_bfd_symbol) (rest : list op_bfd_symbol)
  : list op_bfd_symbol :=
  match rest with
  | [] => [prev]
  | cur :: rest' =>
      if vma cur =? vma prev then keep_first prev rest'
      else prev :: keep_first cur rest'
  end.

Definition unique_by_vma (l : list op_bfd_symbol) : list op_bfd_symbol :=
  match l with
  | [] => []
  | first :: rest => keep_first first rest
  end.

(** The size that the size loop stores at index [i] of the vector [l]. *)
Definition size_at (nr_samples : Z) (l : list op_bfd_symbol) (i : nat)
  : option Z :=
  s ← l !! i;
  let end_ :=
    match l !! S i with
    | Some next => to_u32 (file_offset next)
    | None => to_u32 nr_samples
    end in
  Some (to_u32 (end_ - to_u32 (file_offset s))).

Definition reset_size (s : op_bfd_symbol) : op_bfd_symbol := set_size s 0.

Definition not_excluded (excluded : list string) (s : op_bfd_symbol) : Prop :=
  is_excluded_symbol excluded (sym_name (symbol s)) = false.

#[global] Instance not_excluded_dec excluded s :
  Decision (not_excluded excluded s).
Proof. unfold not_excluded. apply _. Defined.

(** Contiguity of a vector: every entry ends where the next one starts
    and the last one ends at the upper bound of the image. *)
Definition contiguous (nr_samples : Z) (table : list op_bfd_symbol) : Prop :=
  forall (i : nat) (a : op_bfd_symbol),
    table !! i = Some a ->
    span_end a =
      match table !! S i with
      | Some b => span_start b
      | None => to_u32 nr_samples
      end.

(** The bound against which [get_symbol_range] checks. *)
Definition range_limit (b : op_bfd) : Z := to_u32 (nr_samples b + sect_offset b).

(** The range check in the words of the specification: a value is out
    of range when it is outside the half-open interval up to [limit]. *)
Definition outside (limit x : Z) : Prop := ~ (0 <= x < limit).

(** The address that [get_linenr] hands to the line lookup. *)
Definition pc_of (s : op_bfd_symbol) (offset : Z) : Z :=
  let num := to_u32 (offset - sec_filepos (sym_section (symbol s))) in
  let num := to_u32 (num - sym_value (symbol s)) in
  to_u64 (num + sym_value (symbol s)).

(** The section is marked as allocated. *)
Definition allocated (s : op_bfd_symbol) : Prop :=
  Z.land (sec_flags (sym_section (symbol s))) SEC_ALLOC <> 0.

(** A lookup result that the forward scan takes: found, with a line
    number and under the name of the symbol. *)
Definition accepts (name : string) (p : nearest_line) : Prop :=
  nl_found p = true /\ nl_line p <> 0 /\ nl_functionname p = Some name.

(** A lookup result with a line number but no function name. *)
Definition nameless (p : nearest_line) : Prop :=
  nl_found p = true /\ nl_line p <> 0 /\ nl_functionname p = None.

(** The verdict on the first lookup and the values of [filename] and
    [linenr] before the work-around. *)
Definition first_usable (r : nearest_line) : bool :=
  negb (bool_decide (nl_filename r = None)) && nl_found r.

Definition first_verdict (name : string) (r : nearest_line) : bool :=
  first_usable r &&
  match nl_functionname r with
  | Some f => strcmp f name =? 0
  | None => true
  end.

Definition first_linenr (r : nearest_line) : Z :=
  if first_usable r then nl_line r else 0.

Definition first_filename (r : nearest_line) : cstr :=
  if first_usable r then nl_filename r else Some ""%string.

(** The addresses [pc + i], [pc + i + 1], ... of [k] successive
    probes. *)
Fixpoint probe_addresses (pc i : Z) (k : nat) : list Z :=
  match k with
  | O => []
  | S k' => to_u64 (pc + i) :: probe_addresses pc (i + 1) k'
  end.

(** What an accepted probe returns. *)
Definition probe_result (p : nearest_line) : linenr_result :=
  mk_linenr_result true (nl_filename p) (nl_line p).

(** An empty line information in the words of the specification: the
    empty string for the file name and 0 for the line. *)
Definition empty_line_info (r : linenr_result) : Prop :=
  lr_filename r = Some ""%string /\ lr_linenr r = 0.

(** ** Sample images *)

Module Sample.

(** A code section, a data section, and a code section that is not
    loaded into memory. *)
Definition text : asection := mk_asection ".text" 0x13 0x1000 0x400 0x100.
Definition data : asection := mk_asection ".data" 0x03 0x2000 0x100 0x500.
Definition unloaded : asection := mk_asection ".text.cold" 0x10 0 0x40 0x600.

Definition main : asymbol := mk_asymbol (Some "main"%string) text 0.
Definition main_alias : asymbol := mk_asymbol (Some "start"%string) text 0.
Definition helper : asymbol := mk_asymbol (Some "helper"%string) text 0x10.
Definition counter : asymbol := mk_asymbol (Some "counter"%string) data 0.
Definition local_label : asymbol := mk_asymbol (Some ".Lfoo"%string) text 0x20.
Definition marker : asymbol :=
  mk_asymbol (Some "gcc2_compiled."%string) text 0.
Definition cold : asymbol := mk_asymbol (Some "cold"%string) unloaded 0.

(** A provider of line numbers that knows nothing. *)
Definition no_lines (_ : asection) (_ : Z) : nearest_line :=
  mk_nearest_line false None None 0.

Definition image_of (sections : list asection) (symtab : list asymbol)
  (lines : asection -> Z -> nearest_line) : bfd :=
  mk_bfd true HAS_SYMS sections 64 symtab lines.

(** [main] and [start] share an address. *)
Definition aliased : bfd :=
  image_of [text; data] [main; main_alias; helper; counter] no_lines.

(** Three symbols at three addresses. *)
Definition plain : bfd :=
  image_of [text; data] [helper; main; counter; local_label] no_lines.

Definition file_size : Z := 0x1000.

(** The objects built on these images, nothing excluded. *)
Definition plain_image : op_bfd :=
  mk_op_bfd plain (get_symbols plain file_size []).2 file_size 0.

Definition aliased_image : op_bfd :=
  mk_op_bfd aliased (get_symbols aliased file_size []).2 file_size 0.

Definition main_entry : op_bfd_symbol := mk_op_bfd_symbol main 0x1000 0x10.
Definition helper_entry : op_bfd_symbol :=
  mk_op_bfd_symbol helper 0x1010 0xef0.

(** A kernel image with its code in [.text] at file offset 0x2000, and
    one without a [.text] section. *)
Definition kernel_text : asection :=
  mk_asection ".text" 0x13 0xc0100000 0x400 0x2000.
Definition schedule : asymbol :=
  mk_asymbol (Some "schedule"%string) kernel_text 0x40.
Definition vmlinux : bfd := image_of [data; kernel_text] [schedule] no_lines.
Definition no_text : bfd := image_of [data] [counter] no_lines.

Definition host_with (image : bfd) : host :=
  mk_host (fun _ => file_size) (fun _ => 0) (fun _ => Some image).

(** Providers of line numbers: one that attributes every address to
    another function, one that knows file and line but no function, and
    one that has no line at the start of [main], a line but no function
    at the next address, and [main] with a line after that. *)
Definition other_function (_ : asection) (_ : Z) : nearest_line :=
  mk_nearest_line true (Some "a.c"%string) (Some "other"%string) 42.

Definition no_function (_ : asection) (_ : Z) : nearest_line :=
  mk_nearest_line true (Some "a.c"%string) None 5.

Definition gap_then_no_function (_ : asection) (pc : Z) : nearest_line :=
  if pc =? 0 then mk_nearest_line true (Some "a.c"%string) (Some "main"%string) 0
  else if pc =? 1 then mk_nearest_line true (Some "a.c"%string) None 7
  else mk_nearest_line true (Some "a.c"%string) (Some "main"%string) 8.

(** One with no line at the start of [main] and the line 8 from the
    third address on. *)
Definition gap_of_two (_ : asection) (pc : Z) : nearest_line :=
  if pc <? 3 then mk_nearest_line true (Some "a.c"%string) (Some "main"%string) 0
  else mk_nearest_line true (Some "a.c"%string) (Some "main"%string) 8.

(** The object built on [main] and [helper] with a given provider. *)
Definition with_lines (lines : asection -> Z -> nearest_line) : op_bfd :=
  let abfd := image_of [text; data] [main; helper] lines in
  mk_op_bfd abfd (get_symbols abfd file_size []).2 file_size 0.

(** An object whose only symbol sits in a section that is not loaded. *)
Definition cold_image : op_bfd :=
  let abfd := image_of [unloaded] [cold] other_function in
  mk_op_bfd abfd (get_symbols abfd file_size []).2 file_size 0.

Definition cold_entry : op_bfd_symbol := mk_op_bfd_symbol cold 0 0xa00.

Definition kernel_header : opd_header := mk_opd_header true 0.
Definition user_header : opd_header := mk_opd_header false 0.

End Sample.

(** ** Debug information *)

(** The loop of [op_bfd::have_debug_info] over the section list: where
    it stops, either at the first section with the debugging flag or at
    the end of the list.  [SEC_DEBUGGING] is a flag of bfd.h whose value
    differs between releases of BFD; it is left open. *)
Fixpoint first_debugging_section (SEC_DEBUGGING : Z) (section : list asection)
  : list asection :=
  match section with
  | [] => []
  | s :: next =>
      if negb (Z.land (sec_flags s) SEC_DEBUGGING =? 0) then section
      else first_debugging_section SEC_DEBUGGING next
  end.

(** [op_bfd::have_debug_info]: whether the loop stopped on a section. *)
Definition have_debug_info (SEC_DEBUGGING : Z) (b : op_bfd) : bool :=
  match first_debugging_section SEC_DEBUGGING (bfd_sections (ibfd b)) with
  | [] => false
  | _ :: _ => true
  end.

(** The names of the entries of a vector. *)
Definition entry_name (e : op_bfd_symbol) : cstr := sym_name (symbol e).

(** The address computed for a symbol of the image. *)
Definition symbol_vma (sym : asymbol) : Z :=
  to_u64 (sym_value sym + sec_vma (sym_section sym)).


(** * utils/op_session.c: saving the current session *)

Module Session.

(** The constants of op_config.h and of the C library that the program
    uses. *)
Record config : Type := mk_config {
  OP_SAMPLES_DIR : string;
  OP_LOCK_FILE : string
}.

Definition EXIT_FAILURE : Z := 1.
Definition SIGHUP : Z := 1.

(** What the program does to the world, call by call, in order. *)
Inductive action : Type :=
| show_version (app_name : cstr)
| diagnostic (text : string)    (* fprintf (stderr, ...), less the newline *)
| poptPrintHelp
| system (command : string)
| sleep (seconds : Z)
| mkdir (dir : string) (mode : Z)
| opendir (dir : string)
| op_move_regular_file (new_dir old_dir name : string)
| closedir
| op_read_lock_file (file : string)
| kill (pid : Z) (sig : Z).

(** What the world answers in one run: the globals and the left-over
    argument after [op_poptGetContext], whether [show_version] comes
    back or ends the process with a status, the value returned by
    [mkdir], the entries that [readdir] hands out (none if [opendir]
    fails), the value returned by [op_move_regular_file] for an entry,
    and the pid read from the lock file. *)
Record world : Type := mk_world {
  sessionname_option : cstr;
  showvers : bool;
  left_over : cstr;
  show_version_ends : option Z;
  mkdir_returns : string -> Z;
  directory : option (list string);
  move_returns : string -> Z;
  lock_pid : Z
}.

(** How a run, or a part of it, ends. *)
Inductive ended (A : Type) : Type :=
| returned (a : A)
| exited (status : Z)
| overrun.                                     (* a write past a buffer *)

Arguments returned {A} a.
Arguments exited {A} status.
Arguments overrun {A}.

(** A part of the program: what it did and how it ended. *)
Definition prog (A : Type) : Type := list action * ended A.

#[global] Instance prog_ret : MRet prog := fun A a => ([], returned a).

#[global] Instance prog_bind : MBind prog := fun A B f m =>
  match m with
  | (done, returned a) => let '(more, e) := f a in (done ++ more, e)
  | (done, exited status) => (done, exited status)
  | (done, overrun) => (done, overrun)
  end.

Definition act (a : action) : prog unit := ([a], returned tt).

Definition exit {A : Type} (status : Z) : prog A := ([], exited status).

(** [strcpy] and [strcat] into a buffer of [capacity] bytes: the
    contents afterwards, with room for the terminator. *)
Definition strcpy (capacity : nat) (src : string) : prog string :=
  if (String.length src + 1 <=? capacity)%nat then mret src
  else ([], overrun).

Definition strcat (capacity : nat) (dest src : string) : prog string :=
  if (String.length dest + String.length src + 1 <=? capacity)%nat
  then mret (dest +:+ src)
  else ([], overrun).

Section Program.

Variables (cfg : config) (w : world).

(** [op_options]: the session name that [main] goes on with. *)
Definition op_options (argv0 : cstr) : prog string :=
  (if showvers w then
     act (show_version argv0);;
     match show_version_ends w with
     | Some status => exit status
     | None => mret tt
     end
   else mret tt);;
  let file := left_over w in
  let sessionname :=
    match file with
    | Some _ => file
    | None => sessionname_option w
    end in
  match sessionname with
  | None =>
      act (diagnostic "op_session: no session name specified !");;
      act poptPrintHelp;;
      exit EXIT_FAILURE
  | Some name => mret name
  end.

(** The loop [while ((dirent = readdir (dir)) != 0)]. *)
Fixpoint move_entries (dir_name : string) (entries : list string)
  : prog unit :=
  match entries with
  | [] => mret tt
  | d_name :: rest =>
      act (op_move_regular_file dir_name (OP_SAMPLES_DIR cfg) d_name);;
      if negb (move_returns w d_name =? 0) then
        act (diagnostic ("unable to backup " +:+ OP_SAMPLES_DIR cfg +:+ "/"
                         +:+ d_name +:+ " to directory " +:+ dir_name));;
        exit EXIT_FAILURE
      else move_entries dir_name rest
  end.

(** [op_move_files]. *)
Definition op_move_files (sname : string) : prog unit :=
  let capacity :=
    (String.length (OP_SAMPLES_DIR cfg) + String.length sname + 1)%nat in
  dir_name ← strcpy capacity (OP_SAMPLES_DIR cfg);
  dir_name ← strcat capacity dir_name sname;
  act (mkdir dir_name 493);;                  (* 0755 *)
  (if negb (mkdir_returns w dir_name =? 0) then
     act (diagnostic ("unable to create directory " +:+ dir_name));;
     exit EXIT_FAILURE
   else mret tt);;
  act (opendir (OP_SAMPLES_DIR cfg));;
  match directory w with
  | None =>
      act (diagnostic ("unable to open directory " +:+ OP_SAMPLES_DIR cfg));;
      exit EXIT_FAILURE
  | Some entries =>
      move_entries dir_name entries;;
      act closedir
  end.

(** [op_signal_daemon]. *)
Definition op_signal_daemon : prog unit :=
  act (op_read_lock_file (OP_LOCK_FILE cfg));;
  let pid := lock_pid w in
  if negb (pid =? 0) then act (kill pid SIGHUP) else mret tt.

(** [main]: its return value. *)
Definition main (argv0 : cstr) : prog Z :=
  sessionname ← op_options argv0;
  act (system "op_dump");;
  act (sleep 2);;
  op_move_files sessionname;;
  op_signal_daemon;;
  mret 0.

End Program.

(** The calls of one kind in what a run did. *)
Definition is_move (a : action) : bool :=
  match a with op_move_regular_file _ _ _ => true | _ => false end.

Definition is_kill (a : action) : bool :=
  match a with kill _ _ => true | _ => false end.


(** The calls that move [entries] into [dir_name]. *)
Definition moves_of (cfg : config) (dir_name : string)
  (entries : list string) : list action :=
  op_move_regular_file dir_name (OP_SAMPLES_DIR cfg) <$> entries.

(** What [op_options] did before it chose the session name. *)
Definition version_shown (w : world) (argv0 : cstr) : list action :=
  if showvers w then [show_version argv0] else [].

(** The entries up to and including the first that cannot be moved. *)
Fixpoint up_to_failure (w : world) (entries : list string) : list string :=
  match entries with
  | [] => []
  | d_name :: rest =>
      if move_returns w d_name =? 0 then d_name :: up_to_failure w rest
      else [d_name]
  end.

End Session.

(** * Facts *)

Module IntFacts.

Lemma to_u32_range x : 0 <= to_u32 x < 2 ^ 32.
Proof. unfold to_u32, wrap. apply Z.mod_pos_bound. lia. Qed.

Lemma to_u64_range x : 0 <= to_u64 x < 2 ^ 64.
Proof. unfold to_u64, wrap. apply Z.mod_pos_bound. lia. Qed.

Lemma to_u32_small x : 0 <= x < 2 ^ 32 -> to_u32 x = x.
Proof. intros. unfold to_u32, wrap. now apply Z.mod_small. Qed.

Lemma to_u64_small x : 0 <= x < 2 ^ 64 -> to_u64 x = x.
Proof. intros. unfold to_u64, wrap. now apply Z.mod_small. Qed.

Lemma to_u32_idem x : to_u32 (to_u32 x) = to_u32 x.
Proof. unfold to_u32, wrap. apply Z.mod_mod. lia. Qed.

Lemma to_u32_of_u64 x : to_u32 (to_u64 x) = to_u32 x.
Proof.
  unfold to_u32, to_u64, wrap.
  apply Z.mod_mod_divide. exists (2 ^ 32). reflexivity.
Qed.

Lemma to_u32_add_l x y : to_u32 (to_u32 x + y) = to_u32 (x + y).
Proof. unfold to_u32, wrap. apply Zplus_mod_idemp_l. Qed.

Lemma to_u32_add_r x y : to_u32 (x + to_u32 y) = to_u32 (x + y).
Proof. unfold to_u32, wrap. apply Zplus_mod_idemp_r. Qed.

Lemma to_u32_sub_l x y : to_u32 (to_u32 x - y) = to_u32 (x - y).
Proof. unfold to_u32, wrap. apply Zminus_mod_idemp_l. Qed.

Lemma to_u32_sub_r x y : to_u32 (x - to_u32 y) = to_u32 (x - y).
Proof. unfold to_u32, wrap. apply Zminus_mod_idemp_r. Qed.

End IntFacts.

Import IntFacts.

Module CStrFacts.

Lemma compare_same a : String.compare a a = Eq.
Proof.
  pose proof (String.compare_antisym a a) as H.
  destruct (String.compare a a); cbn in H; congruence.
Qed.

Lemma strcmp_eq a b : strcmp a b = 0 <-> a = b.
Proof.
  unfold strcmp. split.
  - intros E. apply String.compare_eq_iff.
    destruct (String.compare a b); [reflexivity | discriminate | discriminate].
  - intros ->. now rewrite compare_same.
Qed.

Lemma strcmp_eqb a b : (strcmp a b =? 0) = String.eqb a b.
Proof.
  destruct (String.eqb_spec a b) as [->|N].
  - apply Z.eqb_eq. now apply strcmp_eq.
  - apply Z.eqb_neq. intros E. now apply strcmp_eq in E.
Qed.

Lemma char_at_0_nul name :
  is_c_string name = true -> (char_at name 0 = NUL <-> name = ""%string).
Proof.
  destruct name as [|c rest]; cbn.
  - intros _. split; reflexivity.
  - intros H. apply andb_prop in H as [H _].
    apply negb_true_iff, Ascii.eqb_neq in H.
    split; [intros E; contradiction | discriminate].
Qed.

Lemma prefix_cons a s1 b s2 :
  String.prefix (String a s1) (String b s2)
  = if Ascii.eqb a b then String.prefix s1 s2 else false.
Proof.
  change (String.prefix (String a s1) (String b s2))
    with (if ascii_dec a b then String.prefix s1 s2 else false).
  destruct (ascii_dec a b) as [->|N].
  - now rewrite Ascii.eqb_refl.
  - apply Ascii.eqb_neq in N. now rewrite N.
Qed.

Lemma local_label_prefix name :
  Ascii.eqb (char_at name 0) "." && Ascii.eqb (char_at name 1) "L"
  = String.prefix ".L" name.
Proof.
  destruct name as [|c0 [|c1 rest]].
  - reflexivity.
  - rewrite prefix_cons. unfold char_at. simpl String.get.
    rewrite (Ascii.eqb_sym c0). destruct (Ascii.eqb "." c0); reflexivity.
  - rewrite !prefix_cons. unfold char_at. simpl String.get.
    rewrite (Ascii.eqb_sym c0), (Ascii.eqb_sym c1).
    destruct (Ascii.eqb "." c0), (Ascii.eqb "L" c1); try reflexivity.
    now destruct rest.
Qed.

End CStrFacts.

Import CStrFacts.

(** ** The candidate filter *)

Section Filter.

Lemma land_bit n f :
  0 <= n -> Z.land f (2 ^ n) = if Z.testbit f n then 2 ^ n else 0.
Proof.
  intros Hn. apply Z.bits_inj'. intros m Hm.
  rewrite Z.land_spec, Z.pow2_bits_eqb by assumption.
  destruct (Z.eqb_spec n m) as [->|N].
  - destruct (Z.testbit f m); cbn.
    + rewrite Z.pow2_bits_eqb by assumption. symmetry. apply Z.eqb_refl.
    + symmetry. apply Z.bits_0.
  - rewrite andb_false_r.
    destruct (Z.testbit f n).
    + rewrite Z.pow2_bits_eqb by assumption. symmetry. now apply Z.eqb_neq.
    + symmetry. apply Z.bits_0.
Qed.

Lemma code_flag_test sym :
  (Z.land (sec_flags (sym_section sym)) SEC_CODE =? 0) = false
  <-> in_code_section sym.
Proof.
  unfold in_code_section. change SEC_CODE with (2 ^ 4).
  rewrite land_bit by lia.
  destruct (Z.testbit _ 4).
  - change (2 ^ 4 =? 0) with false. split; reflexivity.
  - change (0 =? 0) with true. split; discriminate.
Qed.

Lemma boring_test name :
  existsb (fun b => strcmp b name =? 0) boring_symbols = false
  <-> name <> "gcc2_compiled."%string /\ name <> "_init"%string.
Proof.
  unfold boring_symbols. cbn [existsb].
  rewrite !strcmp_eqb, orb_false_r, orb_false_iff, !String.eqb_neq.
  split; intros [H1 H2]; split; congruence.
Qed.

Lemma interesting_symbol_candidate sym :
  c_string_name sym -> (interesting_symbol sym = true <-> is_candidate sym).
Proof.
  intros Hwf. unfold interesting_symbol, is_candidate.
  destruct (Z.land _ SEC_CODE =? 0) eqn:Hcode.
  - split; [discriminate|]. intros [Hc _].
    apply code_flag_test in Hc. congruence.
  - apply code_flag_test in Hcode.
    destruct (sym_name sym) as [name|] eqn:Hname.
    2:{ split; [discriminate|]. intros (_ & name & [=] & _). }
    specialize (Hwf name Hname).
    rewrite local_label_prefix.
    destruct (Ascii.eqb_spec (char_at name 0) NUL) as [Hnul|Hnul].
    { apply char_at_0_nul in Hnul; [|assumption].
      split; [discriminate|]. intros (_ & n & [= <-] & Hne & _). contradiction. }
    assert (name <> ""%string) as Hne.
    { intros ->. apply Hnul. reflexivity. }
    destruct (String.prefix ".L" name) eqn:Hpre.
    { split; [discriminate|]. intros (_ & n & [= <-] & _ & Hp & _). congruence. }
    destruct (existsb _ boring_symbols) eqn:Hboring.
    + split; [discriminate|]. intros (_ & n & [= <-] & _ & _ & H1 & H2).
      assert (existsb (fun b => strcmp b name =? 0) boring_symbols = false) as E
        by (apply boring_test; auto).
      congruence.
    + apply boring_test in Hboring as [H1 H2].
      split; [intros _|reflexivity].
      split; [assumption|]. exists name. auto.
Qed.

Lemma foldl_push_interesting acc bfd_syms :
  foldl push_interesting acc bfd_syms
  = acc ++ (candidate_entry <$> filter (fun s => interesting_symbol s = true) bfd_syms).
Proof.
  revert acc. induction bfd_syms as [|sym rest IH]; intros acc; cbn [foldl].
  - cbn. now rewrite app_nil_r.
  - rewrite IH. unfold push_interesting. rewrite filter_cons.
    destruct (interesting_symbol sym) eqn:E.
    + rewrite decide_True by reflexivity.
      rewrite fmap_cons. now rewrite <- app_assoc.
    + rewrite decide_False by congruence. reflexivity.
Qed.

Lemma collect_symbols_filter bfd_syms :
  collect_symbols bfd_syms
  = candidate_entry <$> filter (fun s => interesting_symbol s = true) bfd_syms.
Proof. unfold collect_symbols. now rewrite foldl_push_interesting. Qed.

Lemma collect_symbols_app l1 l2 :
  collect_symbols (l1 ++ l2) = collect_symbols l1 ++ collect_symbols l2.
Proof. now rewrite !collect_symbols_filter, filter_app, fmap_app. Qed.

End Filter.

(** ** Lists *)

Section ListFacts.

Context {A : Type} (P : A -> Prop) `{!forall x, Decision (P x)}.

Lemma filter_none (l : list A) : Forall (fun x => ~ P x) l -> filter P l = [].
Proof.
  induction 1 as [|x l Hx _ IH]; [reflexivity|].
  rewrite filter_cons, decide_False by assumption. exact IH.
Qed.

Lemma filter_all (l : list A) : Forall P l -> filter P l = l.
Proof.
  induction 1 as [|x l Hx _ IH]; [reflexivity|].
  rewrite filter_cons, decide_True by assumption. now rewrite IH.
Qed.

End ListFacts.

(** ** The stable sort *)

Section StableSort.

Lemma sorted_insert_perm x l : sorted_insert x l ≡ₚ x :: l.
Proof.
  induction l as [|y l IH]; cbn; [reflexivity|].
  destruct (symcomp y x); [|reflexivity].
  rewrite IH. apply Permutation_swap.
Qed.

Lemma stable_sort_perm l : stable_sort l ≡ₚ l.
Proof.
  induction l as [|x l IH]; cbn; [reflexivity|].
  rewrite sorted_insert_perm. now rewrite IH.
Qed.

Lemma sorted_insert_sorted x l :
  StronglySorted vma_le l -> StronglySorted vma_le (sorted_insert x l).
Proof.
  induction l as [|y l IH]; intros Hs; cbn.
  - repeat constructor.
  - apply StronglySorted_inv in Hs as [Hl Hy].
    unfold symcomp. destruct (Z.ltb_spec (vma y) (vma x)) as [Hlt|Hge].
    + constructor; [auto|].
      rewrite sorted_insert_perm. constructor; [unfold vma_le; lia|assumption].
    + constructor; [constructor; assumption|].
      constructor; [exact Hge|].
      eapply Forall_impl; [exact Hy|]. unfold vma_le. cbn. intros; lia.
Qed.

Lemma stable_sort_sorted l : StronglySorted vma_le (stable_sort l).
Proof.
  induction l as [|x l IH]; cbn; [constructor|].
  now apply sorted_insert_sorted.
Qed.

(** Stability: the entries at one address keep their relative order. *)
Lemma sorted_insert_at_vma k x l :
  at_vma k (sorted_insert x l) = at_vma k (x :: l).
Proof.
  unfold at_vma. induction l as [|y l IH]; cbn [sorted_insert]; [reflexivity|].
  unfold symcomp. destruct (Z.ltb_spec (vma y) (vma x)) as [Hlt|Hge];
    [|reflexivity].
  rewrite (filter_cons _ y), IH, !(filter_cons _ x), !(filter_cons _ y).
  repeat case_decide; try reflexivity. lia.
Qed.

Lemma stable_sort_at_vma k l : at_vma k (stable_sort l) = at_vma k l.
Proof.
  induction l as [|x l IH]; cbn [stable_sort foldr]; [reflexivity|].
  fold (stable_sort l). rewrite sorted_insert_at_vma.
  unfold at_vma in *. now rewrite !(filter_cons _ x), IH.
Qed.

(** The sort is determined by what [std::stable_sort] promises: a vector
    in ascending order that holds, at every address, the same entries in
    the same order. *)
Lemma sorted_stable_unique l1 :
  forall l2,
    StronglySorted vma_le l1 -> StronglySorted vma_le l2 ->
    (forall k, at_vma k l1 = at_vma k l2) -> l1 = l2.
Proof.
  unfold at_vma.
  induction l1 as [|x l1 IH]; intros l2 Hs1 Hs2 Hsame.
  - destruct l2 as [|y l2]; [reflexivity|].
    specialize (Hsame (vma y)).
    rewrite filter_nil, filter_cons, decide_True in Hsame by reflexivity.
    discriminate.
  - destruct l2 as [|y l2].
    { specialize (Hsame (vma x)).
      rewrite filter_nil, filter_cons, decide_True in Hsame by reflexivity.
      discriminate. }
    apply StronglySorted_inv in Hs1 as [Hs1 Hx].
    apply StronglySorted_inv in Hs2 as [Hs2 Hy].
    rewrite Forall_forall in Hx, Hy. unfold vma_le in Hx, Hy.
    assert (vma x <= vma y) as Hxy.
    { assert (y ∈ filter (fun s => vma s = vma y) (x :: l1)) as Hin
        by (rewrite Hsame, filter_cons, decide_True by reflexivity; left).
      apply list_elem_of_filter in Hin as [_ Hin].
      apply elem_of_cons in Hin as [->|Hin]; [lia|auto]. }
    assert (vma y <= vma x) as Hyx.
    { assert (x ∈ filter (fun s => vma s = vma x) (y :: l2)) as Hin
        by (rewrite <- Hsame, filter_cons, decide_True by reflexivity; left).
      apply list_elem_of_filter in Hin as [_ Hin].
      apply elem_of_cons in Hin as [->|Hin]; [lia|auto]. }
    assert (x = y) as ->.
    { specialize (Hsame (vma x)).
      rewrite !filter_cons, !decide_True in Hsame by lia. congruence. }
    f_equal. apply IH; [assumption..|].
    intros k. specialize (Hsame k). rewrite !filter_cons in Hsame.
    case_decide; congruence.
Qed.

Lemma stable_sort_unique l l' :
  StronglySorted vma_le l' ->
  (forall k, at_vma k l' = at_vma k l) ->
  l' = stable_sort l.
Proof.
  intros Hs Hsame. apply sorted_stable_unique;
    [assumption|apply stable_sort_sorted|].
  intros k. now rewrite stable_sort_at_vma.
Qed.

End StableSort.

(** ** The size loop *)

Section Sizes.

Variable nr_samples : Z.

Lemma symbol_size_size_at l i :
  symbol_size l nr_samples i = size_at nr_samples l i.
Proof.
  unfold symbol_size, size_at.
  destruct (l !! i) as [s|] eqn:Hs; cbn; [|reflexivity].
  pose proof (lookup_lt_Some _ _ _ Hs) as Hlt.
  change (to_u32 (sec_filepos (sym_section (symbol s)) + sym_value (symbol s)))
    with (to_u32 (file_offset s)).
  do 2 f_equal. f_equal.
  destruct (Nat.eqb_spec i (length l - 1)) as [Hlast|Hmid].
  - rewrite (lookup_ge_None_2 l (S i)) by lia. reflexivity.
  - destruct (lookup_lt_is_Some_2 l (S i)) as [n Hn]; [lia|].
    rewrite Hn. cbn. unfold file_offset.
    rewrite to_u32_add_l. f_equal. lia.
Qed.

Lemma size_at_is_Some l i s :
  l !! i = Some s -> is_Some (size_at nr_samples l i).
Proof. intros H. unfold size_at. rewrite H. cbn. eauto. Qed.

(** The vector after the first [k] rounds of the size loop. *)
Lemma fill_prefix l k :
  (k <= length l)%nat ->
  let done := foldl (fill_size_at nr_samples) l (seq 0 k) in
  length done = length l /\
  forall i,
    done !! i =
      if (i <? k)%nat
      then s ← l !! i; set_size s <$> size_at nr_samples l i
      else l !! i.
Proof.
  induction k as [|k IH]; intros Hk; cbn zeta.
  - cbn. split; [reflexivity|]. intros i. reflexivity.
  - destruct IH as [Hlen Hlook]; [lia|].
    rewrite seq_S, foldl_app. cbn [foldl plus].
    set (done := foldl (fill_size_at nr_samples) l (seq 0 k)) in *.
    destruct (lookup_lt_is_Some_2 l k) as [s Hs]; [lia|].
    assert (done !! k = Some s) as Hdk.
    { rewrite Hlook. rewrite (proj2 (Nat.ltb_ge k k)) by lia. exact Hs. }
    assert (size_at nr_samples done k = size_at nr_samples l k) as Hsz.
    { unfold size_at. rewrite Hdk, Hs, Hlook.
      rewrite (proj2 (Nat.ltb_ge (S k) k)) by lia. reflexivity. }
    destruct (size_at_is_Some l k s Hs) as [sz Hsome].
    unfold fill_size_at. rewrite Hdk, symbol_size_size_at, Hsz, Hsome.
    split; [now rewrite length_insert|].
    intros i. destruct (decide (i = k)) as [->|Hik].
    + rewrite list_lookup_insert_eq by lia.
      rewrite (proj2 (Nat.ltb_lt k (S k))) by lia.
      rewrite Hs. cbn. now rewrite Hsome.
    + rewrite list_lookup_insert_ne by congruence.
      rewrite Hlook.
      destruct (Nat.ltb_spec i k), (Nat.ltb_spec i (S k)); try lia; reflexivity.
Qed.

Lemma fill_sizes_length l : length (fill_sizes nr_samples l) = length l.
Proof. unfold fill_sizes. now apply fill_prefix. Qed.

Lemma fill_sizes_lookup l i :
  fill_sizes nr_samples l !! i
  = s ← l !! i; set_size s <$> size_at nr_samples l i.
Proof.
  unfold fill_sizes. destruct (fill_prefix l (length l)) as [_ H]; [lia|].
  rewrite H. destruct (Nat.ltb_spec i (length l)) as [Hlt|Hge]; [reflexivity|].
  rewrite (lookup_ge_None_2 l i) by lia. reflexivity.
Qed.

Lemma fill_sizes_lookup_Some l i a :
  fill_sizes nr_samples l !! i = Some a ->
  exists s sz,
    l !! i = Some s /\ size_at nr_samples l i = Some sz /\ a = set_size s sz.
Proof.
  rewrite fill_sizes_lookup. destruct (l !! i) as [s|]; cbn; [|discriminate].
  destruct (size_at nr_samples l i) as [sz|]; cbn; [|discriminate].
  intros [= <-]. eauto.
Qed.

Lemma fill_sizes_fmap {B} (f : op_bfd_symbol -> B) l :
  (forall s sz, f (set_size s sz) = f s) ->
  f <$> fill_sizes nr_samples l = f <$> l.
Proof.
  intros Hf. apply list_eq. intros i.
  rewrite !list_lookup_fmap, fill_sizes_lookup.
  destruct (l !! i) as [s|] eqn:Hs; cbn; [|reflexivity].
  destruct (size_at_is_Some l i s Hs) as [sz ->]. cbn. now rewrite Hf.
Qed.

Lemma fill_sizes_vma l : vma <$> fill_sizes nr_samples l = vma <$> l.
Proof. now apply fill_sizes_fmap. Qed.

Lemma fill_sizes_symbol l : symbol <$> fill_sizes nr_samples l = symbol <$> l.
Proof. now apply fill_sizes_fmap. Qed.

Lemma span_start_file_offset s : span_start s = to_u32 (file_offset s).
Proof.
  unfold span_start, file_offset. rewrite to_u32_add_l. f_equal. lia.
Qed.

Lemma span_end_sized s e :
  span_end (set_size s (to_u32 (e - to_u32 (file_offset s)))) = to_u32 e.
Proof.
  unfold span_end. rewrite to_u32_of_u64, span_start_file_offset.
  cbn [size set_size]. unfold file_offset. cbn [symbol set_size].
  set (o := sec_filepos _ + sym_value _).
  rewrite to_u32_add_r, to_u32_add_l.
  replace (o + (e - to_u32 o)) with (e + (o / 2 ^ 32) * 2 ^ 32)
    by (unfold to_u32, wrap; rewrite (Z.mod_eq o (2 ^ 32)) by lia; lia).
  unfold to_u32, wrap. apply Z_mod_plus_full.
Qed.

(** After the size loop every entry ends where the next one starts, and
    the last one ends at [nr_samples]. *)
Lemma fill_sizes_contiguous l i a :
  fill_sizes nr_samples l !! i = Some a ->
  span_end a =
    match fill_sizes nr_samples l !! S i with
    | Some b => span_start b
    | None => to_u32 nr_samples
    end.
Proof.
  intros Ha. apply fill_sizes_lookup_Some in Ha as (s & sz & Hs & Hsz & ->).
  unfold size_at in Hsz. rewrite Hs in Hsz. cbn in Hsz.
  rewrite fill_sizes_lookup.
  destruct (l !! S i) as [n|] eqn:Hn; cbn.
  - destruct (size_at_is_Some l (S i) n Hn) as [szn ->]. cbn.
    injection Hsz as <-. rewrite span_end_sized, to_u32_idem.
    rewrite span_start_file_offset. reflexivity.
  - injection Hsz as <-. now rewrite span_end_sized, to_u32_idem.
Qed.

End Sizes.

(** ** The duplicate scan *)

Section Duplicates.

(** The scan with its cursor behind [pre ++ [prev]]. *)
Lemma drop_duplicates_loop_keep_first rest :
  forall fuel pre prev,
    (length rest < fuel)%nat ->
    drop_duplicates_loop fuel (S (length pre)) (pre ++ prev :: rest)
    = pre ++ keep_first prev rest.
Proof.
  induction rest as [|cur rest IH]; intros fuel pre prev Hfuel;
    destruct fuel as [|fuel]; try (cbn in Hfuel; lia);
    cbn [drop_duplicates_loop keep_first].
  - rewrite length_app. cbn [length].
    rewrite (proj2 (Nat.ltb_ge _ _)) by lia. reflexivity.
  - rewrite length_app. cbn [length].
    rewrite (proj2 (Nat.ltb_lt _ _)) by lia.
    replace (S (length pre) - 1)%nat with (length pre) by lia.
    rewrite (lookup_app_r pre) by lia.
    replace (S (length pre) - length pre)%nat with 1%nat by lia.
    rewrite list_lookup_middle by reflexivity. cbn [lookup list_lookup].
    destruct (vma cur =? vma prev).
    + replace (delete (S (length pre)) (pre ++ prev :: cur :: rest))
        with (pre ++ prev :: rest).
      * apply IH. cbn in Hfuel. lia.
      * change (pre ++ prev :: cur :: rest)
          with (pre ++ [prev] ++ cur :: rest).
        rewrite app_assoc.
        replace (S (length pre)) with (length (pre ++ [prev]))
          by (rewrite length_app; cbn; lia).
        rewrite delete_middle. now rewrite <- app_assoc.
    + specialize (IH fuel (pre ++ [prev]) cur).
      rewrite length_app in IH. cbn [length] in IH.
      replace (length pre + 1)%nat with (S (length pre)) in IH by lia.
      rewrite <- !app_assoc in IH. cbn [app] in IH.
      apply IH. cbn in Hfuel. lia.
Qed.

Lemma drop_duplicates_unique l : drop_duplicates l = unique_by_vma l.
Proof.
  unfold drop_duplicates. destruct l as [|first rest]; [reflexivity|].
  apply (drop_duplicates_loop_keep_first rest _ [] first). cbn. lia.
Qed.

(** More fuel changes nothing: the scan has left its loop. *)
Lemma drop_duplicates_fuel l fuel :
  (length l < fuel)%nat -> drop_duplicates_loop fuel 1 l = drop_duplicates l.
Proof.
  intros Hfuel. rewrite drop_duplicates_unique.
  destruct l as [|first rest].
  - destruct fuel; reflexivity.
  - apply (drop_duplicates_loop_keep_first rest _ [] first). cbn in Hfuel. lia.
Qed.

Lemma keep_first_subseteq prev rest : keep_first prev rest ⊆ prev :: rest.
Proof.
  revert prev. induction rest as [|cur rest IH]; intros prev; cbn; [done|].
  destruct (vma cur =? vma prev).
  - intros x Hx. apply IH in Hx.
    apply elem_of_cons in Hx as [->|Hx]; [left|do 2 right; exact Hx].
  - intros x Hx. apply elem_of_cons in Hx as [->|Hx]; [left|].
    right. now apply IH.
Qed.

Lemma keep_first_strict prev rest :
  StronglySorted vma_le (prev :: rest) ->
  StronglySorted vma_lt (keep_first prev rest).
Proof.
  revert prev. induction rest as [|cur rest IH]; intros prev Hs; cbn.
  - repeat constructor.
  - apply StronglySorted_inv in Hs as [Hrest Hprev].
    pose proof Hrest as Hcur. apply StronglySorted_inv in Hcur as [Hrest' Hcur].
    destruct (Z.eqb_spec (vma cur) (vma prev)) as [Heq|Hne].
    + apply IH. constructor; [assumption|]. now inversion Hprev.
    + constructor; [now apply IH|].
      apply Forall_forall. intros x Hx.
      apply keep_first_subseteq in Hx.
      inversion Hprev as [|? ? Hpc _]; subst. unfold vma_le, vma_lt in *.
      apply elem_of_cons in Hx as [->|Hx]; [lia|].
      rewrite Forall_forall in Hcur. specialize (Hcur x Hx).
      unfold vma_le in Hcur. lia.
Qed.

Lemma unique_by_vma_strict l :
  StronglySorted vma_le l -> StronglySorted vma_lt (unique_by_vma l).
Proof.
  destruct l as [|first rest]; cbn; [constructor|apply keep_first_strict].
Qed.

Lemma keep_first_NoDup prev rest :
  NoDup (vma <$> prev :: rest) -> keep_first prev rest = prev :: rest.
Proof.
  revert prev. induction rest as [|cur rest IH]; intros prev Hnd; cbn;
    [reflexivity|].
  rewrite !fmap_cons in Hnd. apply NoDup_cons in Hnd as [Hprev Hnd].
  destruct (Z.eqb_spec (vma cur) (vma prev)) as [Heq|Hne].
  - exfalso. apply Hprev. rewrite Heq. set_solver.
  - f_equal. apply IH. now rewrite fmap_cons.
Qed.

Lemma unique_by_vma_NoDup l : NoDup (vma <$> l) -> unique_by_vma l = l.
Proof. destruct l; [reflexivity|apply keep_first_NoDup]. Qed.

(** Among the entries at one address the scan keeps the first. *)
Lemma keep_first_at_vma k prev rest :
  StronglySorted vma_le (prev :: rest) ->
  at_vma k (keep_first prev rest) = take 1 (at_vma k (prev :: rest)).
Proof.
  unfold at_vma.
  revert prev. induction rest as [|cur rest IH]; intros prev Hs.
  - cbn [keep_first]. rewrite filter_cons, filter_nil.
    case_decide; reflexivity.
  - cbn [keep_first].
    apply StronglySorted_inv in Hs as [Hrest Hprev].
    pose proof Hrest as Hcur. apply StronglySorted_inv in Hcur as [Hrest' Hcur].
    inversion Hprev as [|? ? Hpc Hprev']; subst. unfold vma_le in Hpc.
    destruct (Z.eqb_spec (vma cur) (vma prev)) as [Heq|Hne].
    + rewrite IH by (constructor; assumption).
      rewrite !(filter_cons _ prev), (filter_cons _ cur).
      repeat case_decide; try reflexivity; congruence.
    + rewrite (filter_cons _ prev), IH by assumption.
      rewrite (filter_cons _ prev).
      case_decide as Hk; [|reflexivity].
      assert (filter (fun s => vma s = k) (cur :: rest) = []) as ->.
      { apply filter_none. constructor; [lia|].
        eapply Forall_impl; [exact Hcur|]. unfold vma_le. cbn. intros; lia. }
      reflexivity.
Qed.

Lemma unique_by_vma_at_vma k l :
  StronglySorted vma_le l ->
  at_vma k (unique_by_vma l) = take 1 (at_vma k l).
Proof.
  destruct l as [|first rest]; [reflexivity|apply keep_first_at_vma].
Qed.

End Duplicates.

(** ** The exclusion loop *)

Section Exclusion.

Variable excluded : list string.

Lemma remove_excluded_loop_filter rest :
  forall fuel pre,
    (length rest < fuel)%nat ->
    remove_excluded_loop excluded fuel (length pre) (pre ++ rest)
    = pre ++ filter (not_excluded excluded) rest.
Proof.
  induction rest as [|cur rest IH]; intros fuel pre Hfuel;
    destruct fuel as [|fuel]; try (cbn in Hfuel; lia);
    cbn [remove_excluded_loop].
  - rewrite lookup_ge_None_2 by (rewrite length_app; cbn; lia). reflexivity.
  - rewrite list_lookup_middle by reflexivity.
    rewrite filter_cons.
    destruct (is_excluded_symbol excluded (sym_name (symbol cur))) eqn:E.
    + rewrite decide_False by (unfold not_excluded; congruence).
      replace (delete (length pre) (pre ++ cur :: rest)) with (pre ++ rest).
      * apply IH. cbn in Hfuel. lia.
      * now rewrite delete_middle.
    + rewrite decide_True by exact E.
      specialize (IH fuel (pre ++ [cur])).
      rewrite length_app in IH. cbn [length] in IH.
      replace (length pre + 1)%nat with (S (length pre)) in IH by lia.
      rewrite <- !app_assoc in IH. cbn [app] in IH.
      apply IH. cbn in Hfuel. lia.
Qed.

Lemma remove_excluded_filter l :
  remove_excluded excluded l = filter (not_excluded excluded) l.
Proof.
  unfold remove_excluded.
  apply (remove_excluded_loop_filter l (S (length l)) []). lia.
Qed.

End Exclusion.

(** ** The vector built by [get_symbols] *)

Section Table.

Lemma StronglySorted_filter {A} (R : relation A) (P : A -> Prop)
  `{!forall x, Decision (P x)} (l : list A) :
  StronglySorted R l -> StronglySorted R (filter P l).
Proof.
  induction 1 as [|x l Hl IH Hx]; [constructor|].
  rewrite filter_cons. case_decide; [|assumption].
  constructor; [assumption|].
  apply Forall_forall. intros y Hy. apply list_elem_of_filter in Hy as [_ Hy].
  rewrite Forall_forall in Hx. auto.
Qed.

Lemma StronglySorted_lookup {A} (R : relation A) (l : list A) i j a b :
  StronglySorted R l -> (i < j)%nat ->
  l !! i = Some a -> l !! j = Some b -> R a b.
Proof.
  intros Hs. revert i j. induction Hs as [|x l Hl IH Hx]; intros i j Hij Ha Hb.
  - discriminate.
  - destruct j as [|j]; [lia|]. cbn in Hb.
    destruct i as [|i]; cbn in Ha.
    + injection Ha as ->. rewrite Forall_forall in Hx.
      apply Hx. eapply list_elem_of_lookup_2. exact Hb.
    + apply (IH i j); [lia|assumption|assumption].
Qed.

Lemma StronglySorted_of_fmap {A B} (f : A -> B) (R : relation B) (l : list A) :
  StronglySorted R (f <$> l) -> StronglySorted (fun a b => R (f a) (f b)) l.
Proof.
  induction l as [|x l IH]; intros Hs; [constructor|].
  rewrite fmap_cons in Hs. apply StronglySorted_inv in Hs as [Hl Hx].
  constructor; [auto|]. now rewrite Forall_fmap in Hx.
Qed.

Lemma StronglySorted_lt_NoDup (l : list Z) : StronglySorted Z.lt l -> NoDup l.
Proof.
  induction 1 as [|x l Hl IH Hx]; constructor; [|assumption].
  intros Hin. rewrite Forall_forall in Hx. specialize (Hx x Hin). lia.
Qed.

Lemma sized_symbols_sorted bfd_syms nr :
  StronglySorted vma_le (sized_symbols bfd_syms nr).
Proof.
  unfold sized_symbols.
  apply (StronglySorted_of_fmap vma Z.le). rewrite fill_sizes_vma.
  apply (StronglySorted_fmap vma vma_le Z.le); [auto|].
  apply stable_sort_sorted.
Qed.

Lemma unique_symbols_unique bfd_syms nr :
  unique_symbols bfd_syms nr = unique_by_vma (sized_symbols bfd_syms nr).
Proof. apply drop_duplicates_unique. Qed.

Lemma final_symbols_filter bfd_syms nr excluded :
  final_symbols bfd_syms nr excluded
  = filter (not_excluded excluded) (unique_symbols bfd_syms nr).
Proof. apply remove_excluded_filter. Qed.

Lemma unique_symbols_strict bfd_syms nr :
  StronglySorted vma_lt (unique_symbols bfd_syms nr).
Proof.
  rewrite unique_symbols_unique.
  apply unique_by_vma_strict, sized_symbols_sorted.
Qed.

Lemma final_symbols_strict bfd_syms nr excluded :
  StronglySorted vma_lt (final_symbols bfd_syms nr excluded).
Proof.
  rewrite final_symbols_filter.
  apply StronglySorted_filter, unique_symbols_strict.
Qed.

(** [get_symbols] leaves the vector empty or fully built. *)
Lemma get_symbols_table ibfd nr excluded :
  (get_symbols ibfd nr excluded).2 = []
  \/ (get_symbols ibfd nr excluded).2
     = final_symbols (bfd_symtab ibfd) nr excluded.
Proof.
  unfold get_symbols.
  destruct (Z.land _ HAS_SYMS =? 0); [now left|].
  destruct (to_u64 _ <? 1); [now left|].
  destruct (Z.of_nat _ <? 1); [now left|].
  right. now destruct (final_symbols _ _ _).
Qed.

Lemma get_symbols_strict ibfd nr excluded :
  StronglySorted vma_lt (get_symbols ibfd nr excluded).2.
Proof.
  destruct (get_symbols_table ibfd nr excluded) as [-> | ->];
    [constructor|apply final_symbols_strict].
Qed.

End Table.

(** C2: whatever the symbols of the image, the vector left by
    [get_symbols] is strictly ascending by address: a later entry has a
    strictly larger address, so no two entries share one. *)
Theorem get_symbols_strictly_ascending (ibfd : bfd) (nr : Z)
  (excluded : list string) :
  let table := (get_symbols ibfd nr excluded).2 in
  StronglySorted Z.lt (vma <$> table) /\
  NoDup (vma <$> table) /\
  forall (i j : nat) (a b : op_bfd_symbol),
    (i < j)%nat -> table !! i = Some a -> table !! j = Some b -> vma a < vma b.
Proof.
  intros table.
  pose proof (get_symbols_strict ibfd nr excluded) as Hs. fold table in Hs.
  assert (StronglySorted Z.lt (vma <$> table)) as Hz.
  { apply (StronglySorted_fmap vma vma_lt Z.lt); [auto|exact Hs]. }
  split; [exact Hz|]. split; [now apply StronglySorted_lt_NoDup|].
  intros i j a b Hij Ha Hb.
  exact (StronglySorted_lookup vma_lt table i j a b Hs Hij Ha Hb).
Qed.

(** C3: the filter keeps a symbol exactly when it sits in a code
    section, has a non-empty name that does not begin with [.L] and is
    neither [gcc2_compiled.] nor [_init]; a [.L] name, the marker
    [gcc2_compiled.] and a symbol outside the code sections are dropped;
    and whether a symbol enters the vector depends on that symbol alone,
    whatever comes before or after it in the symbol table. *)
Theorem interesting_symbol_exact (sym : asymbol) (before after : list asymbol) :
  c_string_name sym ->
  (interesting_symbol sym = true <-> is_candidate sym) /\
  (forall rest : string,
     sym_name sym = Some (".L" +:+ rest)%string ->
     interesting_symbol sym = false) /\
  (sym_name sym = Some "gcc2_compiled."%string ->
   interesting_symbol sym = false) /\
  (~ in_code_section sym -> interesting_symbol sym = false) /\
  collect_symbols (before ++ sym :: after)
  = collect_symbols before
    ++ (if interesting_symbol sym then [candidate_entry sym] else [])
    ++ collect_symbols after.
Proof.
  intros Hwf.
  pose proof (interesting_symbol_candidate sym Hwf) as Hiff.
  split; [exact Hiff|]. split; [|split; [|split]].
  - intros rest Hname. apply not_true_is_false. intros Hi.
    apply Hiff in Hi as (_ & name & Hn & _ & Hp & _).
    rewrite Hname in Hn. injection Hn as <-.
    change (".L" +:+ rest)%string with (String "." (String "L" rest)) in Hp.
    rewrite !prefix_cons, !Ascii.eqb_refl in Hp.
    destruct rest; discriminate.
  - intros Hname. apply not_true_is_false. intros Hi.
    apply Hiff in Hi as (_ & name & Hn & _ & _ & Hm & _). congruence.
  - intros Hcode. apply not_true_is_false. intros Hi.
    apply Hiff in Hi as [Hc _]. contradiction.
  - change (sym :: after) with ([sym] ++ after).
    rewrite !collect_symbols_app. do 2 f_equal.
Qed.

Lemma interesting_symbol_exact_witness :
  c_string_name Sample.main /\
  (interesting_symbol Sample.main = true <-> is_candidate Sample.main) /\
  collect_symbols ([Sample.helper] ++ Sample.main :: [Sample.counter])
  = collect_symbols [Sample.helper]
    ++ (if interesting_symbol Sample.main
        then [candidate_entry Sample.main] else [])
    ++ collect_symbols [Sample.counter].
Proof.
  assert (c_string_name Sample.main) as Hwf.
  { intros name [= <-]. reflexivity. }
  split; [exact Hwf|].
  destruct (interesting_symbol_exact Sample.main [Sample.helper]
              [Sample.counter] Hwf) as (H1 & _ & _ & _ & H5).
  split; [exact H1|exact H5].
Defined.

(** C10: [sym_offset] checks nothing: for an index of the vector and any
    raw offset it returns raw offset minus section file position minus
    symbol value, reduced modulo 2^32, so a raw offset below the start
    of the symbol comes back wrapped, neither negative nor an error. *)
Theorem sym_offset_wraps (b : op_bfd) (sym_index : nat) (s : op_bfd_symbol)
  (raw : Z) :
  syms b !! sym_index = Some s ->
  sym_offset b sym_index raw
  = Some ((raw - sec_filepos (sym_section (symbol s)) - sym_value (symbol s))
          mod 2 ^ 32) /\
  (forall r, sym_offset b sym_index raw = Some r -> 0 <= r < 2 ^ 32) /\
  (raw < file_offset s -> file_offset s - raw <= 2 ^ 32 ->
   sym_offset b sym_index raw = Some (raw - file_offset s + 2 ^ 32)).
Proof.
  intros Hs.
  assert (sym_offset b sym_index raw = Some (to_u32 (raw - file_offset s))) as E.
  { unfold sym_offset. rewrite Hs. cbn. rewrite to_u32_sub_l.
    do 2 f_equal. unfold file_offset. lia. }
  split; [|split].
  - rewrite E. unfold to_u32, wrap, file_offset. do 2 f_equal. lia.
  - intros r Hr. rewrite E in Hr. injection Hr as <-. apply to_u32_range.
  - intros Hlt Hle. rewrite E. f_equal. unfold to_u32, wrap.
    symmetry. apply Z.mod_unique_pos with (q := -1); lia.
Qed.

Lemma sym_offset_wraps_witness :
  syms Sample.plain_image !! 0%nat = Some Sample.main_entry /\
  sym_offset Sample.plain_image 0 0x80 = Some (0x80 - 0x100 + 2 ^ 32).
Proof.
  assert (syms Sample.plain_image !! 0%nat = Some Sample.main_entry) as Hs
    by reflexivity.
  split; [exact Hs|].
  destruct (sym_offset_wraps Sample.plain_image 0 Sample.main_entry 0x80 Hs)
    as (_ & _ & H).
  apply H; vm_compute; [reflexivity|discriminate].
Defined.

(** ** Contiguity *)

Section Contiguity.

Lemma sized_symbols_contiguous bfd_syms nr :
  contiguous nr (sized_symbols bfd_syms nr).
Proof. intros i a. apply fill_sizes_contiguous. Qed.

Lemma sized_symbols_vma bfd_syms nr :
  vma <$> sized_symbols bfd_syms nr ≡ₚ vma <$> collect_symbols bfd_syms.
Proof.
  unfold sized_symbols. rewrite fill_sizes_vma.
  apply fmap_Permutation, stable_sort_perm.
Qed.

Lemma unique_symbols_without_collisions bfd_syms nr :
  NoDup (vma <$> collect_symbols bfd_syms) ->
  unique_symbols bfd_syms nr = sized_symbols bfd_syms nr.
Proof.
  intros Hnd. rewrite unique_symbols_unique. apply unique_by_vma_NoDup.
  now rewrite sized_symbols_vma.
Qed.

End Contiguity.

(** C1, as the code has it: when no two candidate symbols compute to the
    same address, the vector is contiguous before the exclusion loop
    runs (each entry ends, in 32-bit arithmetic, where the next one
    starts, and the last one ends at [nr_samples]); the exclusion loop
    then only removes entries, so the vector left by [get_symbols] is
    contiguous when nothing is excluded. *)
Theorem contiguous_without_collisions (ibfd : bfd) (nr : Z)
  (excluded : list string) :
  NoDup (vma <$> collect_symbols (bfd_symtab ibfd)) ->
  let before_exclusion := unique_symbols (bfd_symtab ibfd) nr in
  let table := (get_symbols ibfd nr excluded).2 in
  contiguous nr before_exclusion /\
  (table = [] \/ table = filter (not_excluded excluded) before_exclusion) /\
  (Forall (not_excluded excluded) before_exclusion -> contiguous nr table).
Proof.
  intros Hnd before_exclusion table.
  assert (contiguous nr before_exclusion) as Hc.
  { unfold before_exclusion.
    rewrite unique_symbols_without_collisions by assumption.
    apply sized_symbols_contiguous. }
  assert (table = [] \/ table = filter (not_excluded excluded) before_exclusion)
    as Ht.
  { unfold table, before_exclusion. rewrite <- final_symbols_filter.
    apply get_symbols_table. }
  split; [exact Hc|]. split; [exact Ht|].
  intros Hall. destruct Ht as [-> | ->].
  - intros i a Ha. discriminate.
  - now rewrite filter_all.
Qed.

Lemma contiguous_without_collisions_witness :
  NoDup (vma <$> collect_symbols (bfd_symtab Sample.plain)) /\
  contiguous Sample.file_size (get_symbols Sample.plain Sample.file_size []).2.
Proof.
  assert (NoDup (vma <$> collect_symbols (bfd_symtab Sample.plain))) as Hnd.
  { vm_compute. repeat constructor; rewrite ?list_elem_of_In; cbn; intuition lia. }
  split; [exact Hnd|].
  apply (contiguous_without_collisions Sample.plain Sample.file_size [] Hnd).
  vm_compute. repeat constructor.
Defined.

(** C1, as stated, fails in two ways.  Where two candidates share an
    address, [main] keeps the size 0 that it got while its alias was
    still its neighbour, and no longer reaches [helper].  Where a symbol
    is excluded, its neighbour keeps its size: with [helper] gone,
    [main] is the last entry and ends far below [nr_samples]. *)
Lemma contiguity_counterexample :
  ~ contiguous Sample.file_size
      (get_symbols Sample.aliased Sample.file_size []).2 /\
  ~ contiguous Sample.file_size
      (get_symbols Sample.plain Sample.file_size ["helper"%string]).2.
Proof.
  split; intros H.
  - specialize (H 0%nat (mk_op_bfd_symbol Sample.main 0x1000 0) eq_refl).
    vm_compute in H. discriminate.
  - specialize (H 0%nat Sample.main_entry eq_refl).
    vm_compute in H. discriminate.
Qed.

(** ** Which duplicate survives, and name lookup *)

Section Survivors.

Lemma at_vma_fmap (f : op_bfd_symbol -> op_bfd_symbol) k l :
  (forall s, vma (f s) = vma s) -> at_vma k (f <$> l) = f <$> at_vma k l.
Proof.
  intros Hf. unfold at_vma. induction l as [|x l IH]; [reflexivity|].
  rewrite fmap_cons, !filter_cons, Hf, IH.
  case_decide; reflexivity.
Qed.

Lemma symbol_reset_size (l : list op_bfd_symbol) :
  symbol <$> (reset_size <$> l) = symbol <$> l.
Proof. rewrite <- list_fmap_compose. reflexivity. Qed.

Lemma reset_size_fill_sizes nr l :
  reset_size <$> fill_sizes nr l = reset_size <$> l.
Proof. now apply fill_sizes_fmap. Qed.

(** The symbols at one address, read off before and after the size
    loop. *)
Lemma at_vma_fill_sizes nr k l :
  symbol <$> at_vma k (fill_sizes nr l) = symbol <$> at_vma k l.
Proof.
  rewrite <- (symbol_reset_size (at_vma k (fill_sizes nr l))).
  rewrite <- (symbol_reset_size (at_vma k l)).
  rewrite <- !at_vma_fmap by reflexivity.
  now rewrite reset_size_fill_sizes.
Qed.

(** For every address, the scan leaves the symbol that came first in
    extraction order among those at that address. *)
Lemma unique_symbols_first bfd_syms nr k :
  symbol <$> at_vma k (unique_symbols bfd_syms nr)
  = take 1 (symbol <$> at_vma k (collect_symbols bfd_syms)).
Proof.
  rewrite unique_symbols_unique.
  rewrite unique_by_vma_at_vma by apply sized_symbols_sorted.
  rewrite fmap_take. f_equal. unfold sized_symbols.
  now rewrite at_vma_fill_sizes, stable_sort_at_vma.
Qed.

Lemma take_1_filter_middle (P : op_bfd_symbol -> Prop)
  `{!forall x, Decision (P x)} l1 c rest y :
  P c -> y ∈ take 1 (filter P (l1 ++ c :: rest)) -> y ∈ l1 \/ y = c.
Proof.
  intros Hc. rewrite filter_app, filter_cons, decide_True by assumption.
  destruct (filter P l1) as [|h t] eqn:E; cbn.
  - intros Hy. apply list_elem_of_singleton in Hy. now right.
  - intros Hy. apply list_elem_of_singleton in Hy as ->. left.
    assert (h ∈ filter P l1) as Hh by (rewrite E; left).
    now apply list_elem_of_filter in Hh.
Qed.

Lemma unique_by_vma_subseteq l : unique_by_vma l ⊆ l.
Proof. destruct l; [done|apply keep_first_subseteq]. Qed.

(** Every symbol of the built vector is a candidate of the image. *)
Lemma final_symbols_candidates bfd_syms nr excluded e :
  e ∈ final_symbols bfd_syms nr excluded ->
  e ∈ unique_symbols bfd_syms nr /\
  exists c, c ∈ collect_symbols bfd_syms /\ symbol e = symbol c.
Proof.
  rewrite final_symbols_filter. intros He.
  apply list_elem_of_filter in He as [_ He]. split; [exact He|].
  rewrite unique_symbols_unique in He. apply unique_by_vma_subseteq in He.
  assert (symbol e ∈ symbol <$> sized_symbols bfd_syms nr) as Hs
    by (apply list_elem_of_fmap; eauto).
  unfold sized_symbols in Hs. rewrite fill_sizes_symbol in Hs.
  rewrite stable_sort_perm in Hs.
  apply list_elem_of_fmap in Hs as (c & Hc & Hin). eauto.
Qed.

Lemma collect_symbols_named bfd_syms c :
  c ∈ collect_symbols bfd_syms -> is_Some (sym_name (symbol c)).
Proof.
  rewrite collect_symbols_filter. intros Hc.
  apply list_elem_of_fmap in Hc as (sym & -> & Hsym).
  apply list_elem_of_filter in Hsym as [Hi _].
  unfold interesting_symbol in Hi. cbn.
  destruct (Z.land _ _ =? 0); [discriminate|].
  destruct (sym_name sym); [eauto|discriminate].
Qed.

Lemma final_symbols_named bfd_syms nr excluded :
  Forall (fun e => is_Some (sym_name (symbol e)))
    (final_symbols bfd_syms nr excluded).
Proof.
  apply Forall_forall. intros e He.
  apply final_symbols_candidates in He as (_ & c & Hc & ->).
  eapply collect_symbols_named. exact Hc.
Qed.

(** [symbol_index] on a vector whose names are all there: the index of
    the first entry of that name, or [nil_symbol_index]. *)
Lemma symbol_index_from_absent l name i :
  Forall (fun e => is_Some (sym_name (symbol e))) l ->
  (forall e, e ∈ l -> sym_name (symbol e) <> Some name) ->
  symbol_index_from l name i = Some nil_symbol_index.
Proof.
  intros Hnamed. revert i.
  induction Hnamed as [|e l [n Hn] _ IH]; intros i Habs; [reflexivity|].
  cbn. rewrite Hn. cbn.
  destruct (Z.eqb_spec (strcmp n name) 0) as [E|_].
  - apply strcmp_eq in E as ->. exfalso. apply (Habs e); [left|exact Hn].
  - apply IH. intros e' He'. apply Habs. now right.
Qed.

Lemma symbol_index_from_present l name i :
  Forall (fun e => is_Some (sym_name (symbol e))) l ->
  (exists e, e ∈ l /\ sym_name (symbol e) = Some name) ->
  exists (j : nat) (e : op_bfd_symbol),
    symbol_index_from l name i = Some (i + Z.of_nat j) /\
    l !! j = Some e /\
    sym_name (symbol e) = Some name /\
    forall (j' : nat) (e' : op_bfd_symbol),
      (j' < j)%nat -> l !! j' = Some e' -> sym_name (symbol e') <> Some name.
Proof.
  intros Hnamed. revert i.
  induction Hnamed as [|e l [n Hn] _ IH]; intros i (e0 & Hin & Hname).
  - inversion Hin.
  - cbn [symbol_index_from]. rewrite Hn. cbn.
    destruct (Z.eqb_spec (strcmp n name) 0) as [E|N].
    + apply strcmp_eq in E as ->. exists 0%nat, e.
      repeat split; [f_equal; lia|assumption|intros; lia].
    + assert (n <> name) as Hne by (intros ->; apply N; now apply strcmp_eq).
      apply elem_of_cons in Hin as [-> | Hin]; [congruence|].
      destruct (IH (i + 1) (ex_intro _ e0 (conj Hin Hname)))
        as (j & e1 & Hidx & Hj & Hn1 & Hfirst).
      exists (S j), e1. repeat split; [rewrite Hidx; f_equal; lia|assumption..|].
      intros [|j'] e' Hlt He'; cbn in He'.
      * injection He' as <-. congruence.
      * apply (Hfirst j'); [lia|assumption].
Qed.

End Survivors.

Section Dropped.

Variables (bfd_syms : list asymbol) (nr : Z).
Variables (l1 l2 l3 : list op_bfd_symbol) (c1 c2 : op_bfd_symbol) (n : string).

Hypothesis extraction_order :
  collect_symbols bfd_syms = l1 ++ c1 :: l2 ++ c2 :: l3.
Hypothesis same_address : vma c1 = vma c2.
Hypothesis later_name : sym_name (symbol c2) = Some n.
Hypothesis name_unique :
  forall y, y ∈ l1 ++ c1 :: l2 ++ l3 -> sym_name (symbol y) <> Some n.

(** No entry that survives the scan bears the name of the later
    duplicate. *)
Lemma no_survivor_named u :
  u ∈ unique_symbols bfd_syms nr -> sym_name (symbol u) <> Some n.
Proof.
  intros Hu Hname.
  assert (symbol u ∈ symbol <$> at_vma (vma u) (unique_symbols bfd_syms nr))
    as Hs.
  { apply list_elem_of_fmap. exists u. split; [reflexivity|].
    apply list_elem_of_filter. split; [reflexivity|exact Hu]. }
  rewrite unique_symbols_first, <- fmap_take in Hs.
  apply list_elem_of_fmap in Hs as (y & Hy & Hin).
  assert (y ∈ at_vma (vma u) (collect_symbols bfd_syms)) as Hyf.
  { eapply subseteq_take. exact Hin. }
  apply list_elem_of_filter in Hyf as [Hvma Hyc].
  assert (sym_name (symbol y) = Some n) as Hyn by congruence.
  assert (y = c2) as ->.
  { rewrite extraction_order in Hyc.
    apply elem_of_app in Hyc as [Hyc|Hyc];
      [exfalso; apply (name_unique y); [set_solver|exact Hyn]|].
    apply elem_of_cons in Hyc as [->|Hyc];
      [exfalso; apply (name_unique c1); [set_solver|exact Hyn]|].
    apply elem_of_app in Hyc as [Hyc|Hyc];
      [exfalso; apply (name_unique y); [set_solver|exact Hyn]|].
    apply elem_of_cons in Hyc as [->|Hyc]; [reflexivity|].
    exfalso; apply (name_unique y); [set_solver|exact Hyn]. }
  unfold at_vma in Hin. rewrite extraction_order in Hin.
  apply take_1_filter_middle in Hin; [|congruence].
  apply (name_unique c2); [|exact later_name].
  destruct Hin as [Hin| ->]; set_solver.
Qed.

End Dropped.

(** C4: two candidates [c1], [c2] at one address, [c2] later in
    extraction order under a name no other candidate bears.  The sort
    keeps the candidates at one address in extraction order; the scan
    is the recursion that deletes the second of two neighbours with the
    same address; for every address it leaves the symbol that was
    extracted first; [c2] is gone, and [symbol_index] answers
    [nil_symbol_index] for its name, while for a name that is in the
    vector it answers the index of the first entry of that name. *)
Theorem later_duplicate_dropped (ibfd : bfd) (nr off : Z)
  (excluded : list string)
  (l1 l2 l3 : list op_bfd_symbol) (c1 c2 : op_bfd_symbol) (n : string) :
  let b := mk_op_bfd ibfd (get_symbols ibfd nr excluded).2 nr off in
  collect_symbols (bfd_symtab ibfd) = l1 ++ c1 :: l2 ++ c2 :: l3 ->
  vma c1 = vma c2 ->
  sym_name (symbol c2) = Some n ->
  (forall y, y ∈ l1 ++ c1 :: l2 ++ l3 -> sym_name (symbol y) <> Some n) ->
  (forall k : Z,
     at_vma k (stable_sort (collect_symbols (bfd_symtab ibfd)))
     = at_vma k (collect_symbols (bfd_symtab ibfd))) /\
  unique_symbols (bfd_symtab ibfd) nr
  = unique_by_vma (sized_symbols (bfd_symtab ibfd) nr) /\
  (forall k : Z,
     symbol <$> at_vma k (unique_symbols (bfd_symtab ibfd) nr)
     = take 1 (symbol <$> at_vma k (collect_symbols (bfd_symtab ibfd)))) /\
  (symbol c2 ∉ symbol <$> unique_symbols (bfd_symtab ibfd) nr) /\
  symbol_index b n = Some nil_symbol_index /\
  (forall m : string,
     (exists e, e ∈ syms b /\ sym_name (symbol e) = Some m) ->
     exists (j : nat) (e : op_bfd_symbol),
       symbol_index b m = Some (Z.of_nat j) /\
       syms b !! j = Some e /\
       sym_name (symbol e) = Some m /\
       forall (j' : nat) (e' : op_bfd_symbol),
         (j' < j)%nat -> syms b !! j' = Some e' ->
         sym_name (symbol e') <> Some m).
Proof.
  intros b Horder Hvma Hname Huniq.
  pose proof (no_survivor_named _ nr _ _ _ _ _ _ Horder Hvma Hname Huniq)
    as Hnone.
  assert (Forall (fun e => is_Some (sym_name (symbol e))) (syms b)) as Hnamed.
  { cbn [syms b].
    destruct (get_symbols_table ibfd nr excluded) as [-> | ->];
      [constructor|apply final_symbols_named]. }
  split; [intros k; apply stable_sort_at_vma|].
  split; [apply unique_symbols_unique|].
  split; [intros k; apply unique_symbols_first|].
  split; [|split].
  - intros Hin. apply list_elem_of_fmap in Hin as (u & Hu & Hin).
    apply (Hnone u Hin). congruence.
  - apply symbol_index_from_absent; [exact Hnamed|].
    intros e He. cbn [syms b] in He.
    destruct (get_symbols_table ibfd nr excluded) as [E | E];
      rewrite E in He; [inversion He|].
    apply final_symbols_candidates in He as [He _]. now apply Hnone.
  - intros m Hm.
    destruct (symbol_index_from_present (syms b) m 0 Hnamed Hm)
      as (j & e & Hidx & Hrest).
    exists j, e. split; [exact Hidx|exact Hrest].
Qed.

Lemma later_duplicate_dropped_witness :
  collect_symbols (bfd_symtab Sample.aliased)
  = [] ++ candidate_entry Sample.main
       :: [] ++ candidate_entry Sample.main_alias
       :: [candidate_entry Sample.helper] /\
  vma (candidate_entry Sample.main) = vma (candidate_entry Sample.main_alias) /\
  symbol_index Sample.aliased_image "start" = Some nil_symbol_index.
Proof.
  split; [reflexivity|]. split; [reflexivity|].
  destruct (later_duplicate_dropped Sample.aliased Sample.file_size 0 []
              [] [] [candidate_entry Sample.helper]
              (candidate_entry Sample.main)
              (candidate_entry Sample.main_alias) "start")
    as (_ & _ & _ & _ & Habsent & _).
  - reflexivity.
  - reflexivity.
  - reflexivity.
  - intros y Hy. cbn in Hy. rewrite !elem_of_cons in Hy.
    destruct Hy as [-> | [-> | Hy]]; [discriminate|discriminate|inversion Hy].
  - exact Habsent.
Defined.

(** ** The range check *)

Section Range.

Lemma span_start_range s : 0 <= span_start s < 2 ^ 32.
Proof. apply to_u32_range. Qed.

Lemma span_end_range s : 0 <= span_end s < 2 ^ 32.
Proof. apply to_u32_range. Qed.

Lemma get_symbol_range_unfold b idx s :
  syms b !! idx = Some s ->
  get_symbol_range b idx =
    if span_start s >=? range_limit b then Exit start_out_of_range
    else if span_end s >? range_limit b then Exit end_out_of_range
    else if span_start s >? span_end s then Exit start_overflow
    else Done (span_start s, span_end s).
Proof. intros Hs. unfold get_symbol_range. rewrite Hs. reflexivity. Qed.

End Range.

(** C5, as the code has it: for an index of the vector the range check
    leaves through [exit] exactly when [start] is at or above the limit
    [nr_samples + sect_offset] (in 32-bit arithmetic), or [end] is
    strictly above it, or [start] is above [end]; otherwise the span is
    returned.  The limit is exclusive for [start] and inclusive for
    [end]. *)
Theorem get_symbol_range_exact (b : op_bfd) (sym_idx : nat)
  (s : op_bfd_symbol) :
  syms b !! sym_idx = Some s ->
  let start := span_start s in
  let end_ := span_end s in
  let limit := range_limit b in
  ((exists why, get_symbol_range b sym_idx = Exit why)
   <-> start >= limit \/ end_ > limit \/ start > end_) /\
  (get_symbol_range b sym_idx = Done (start, end_)
   <-> 0 <= start < limit /\ start <= end_ <= limit) /\
  (get_symbol_range b sym_idx = Exit start_out_of_range <-> start >= limit) /\
  (get_symbol_range b sym_idx = Exit end_out_of_range
   <-> start < limit /\ end_ > limit).
Proof.
  intros Hs start end_ limit.
  rewrite (get_symbol_range_unfold b sym_idx s Hs).
  fold start end_ limit.
  pose proof (span_start_range s) as Hr. fold start in Hr.
  destruct (Z.geb_spec start limit) as [H1|H1];
    [|destruct (Z.gtb_spec end_ limit) as [H2|H2];
      [|destruct (Z.gtb_spec start end_) as [H3|H3]]];
    repeat apply conj; intros H;
    first [ discriminate
          | lia
          | (destruct H as [why Hwhy]; discriminate)
          | (destruct H as [Ha | [Hb | Hc]]; lia)
          | (destruct H as [Ha Hb]; lia)
          | (eexists; reflexivity)
          | reflexivity ].
Qed.

Lemma get_symbol_range_exact_witness :
  syms Sample.plain_image !! 1%nat = Some Sample.helper_entry /\
  get_symbol_range Sample.plain_image 1 = Done (0x110, 0x1000).
Proof.
  assert (syms Sample.plain_image !! 1%nat = Some Sample.helper_entry) as Hs
    by reflexivity.
  split; [exact Hs|].
  destruct (get_symbol_range_exact Sample.plain_image 1 Sample.helper_entry Hs)
    as (_ & Hdone & _).
  apply Hdone. vm_compute. repeat split; discriminate.
Defined.

(** C5, as stated, fails at the limit itself: the last symbol of an
    image ends at [nr_samples + sect_offset], which is outside the
    half-open interval, and its span is returned all the same. *)
Lemma range_limit_counterexample :
  get_symbol_range Sample.plain_image 1 = Done (0x110, 0x1000) /\
  range_limit Sample.plain_image = 0x1000 /\
  outside (range_limit Sample.plain_image) 0x1000.
Proof.
  split; [reflexivity|]. split; [reflexivity|].
  unfold outside. vm_compute. intros [_ H]. discriminate.
Qed.

(** ** Opening a kernel image *)

Section Open.

Variables (h : host) (header : opd_header) (filename : string).
Variables (excluded : list string) (abfd : bfd).

Hypothesis named : filename <> ""%string.
Hypothesis opens : bfd_openr h filename = Some abfd.
Hypothesis matches : bfd_format_matches abfd = true.

Lemma filename_nonempty : (String.length filename =? 0)%nat = false.
Proof. apply Nat.eqb_neq. destruct filename; [congruence|cbn; lia]. Qed.

(** With a [.text] section its file position, as a [u32], becomes the
    section offset of the object and of the sample files. *)
Lemma kernel_offset_recorded sect :
  is_kernel header = true ->
  bfd_get_section_by_name abfd ".text" = Some sect ->
  exists o,
    op_bfd_ctor h header filename excluded = Done o /\
    sect_offset (image o) = to_u32 (sec_filepos sect) /\
    samples_sect_offset o = to_u32 (sec_filepos sect).
Proof.
  intros Hk Hsect. unfold op_bfd_ctor, open_bfd_image.
  rewrite filename_nonempty, opens, matches, Hk, Hsect. cbn.
  eexists. split; [reflexivity|]. split; reflexivity.
Qed.

Lemma user_offset_zero :
  is_kernel header = false ->
  exists o,
    op_bfd_ctor h header filename excluded = Done o /\
    sect_offset (image o) = 0 /\
    samples_sect_offset o = 0.
Proof.
  intros Hk. unfold op_bfd_ctor, open_bfd_image.
  rewrite filename_nonempty, opens, matches, Hk. cbn.
  eexists. split; [reflexivity|]. split; reflexivity.
Qed.

(** Without one the null pointer returned by
    [bfd_get_section_by_name] is dereferenced. *)
Lemma kernel_without_text_undefined :
  is_kernel header = true ->
  bfd_get_section_by_name abfd ".text" = None ->
  op_bfd_ctor h header filename excluded = Undefined.
Proof.
  intros Hk Hsect. unfold op_bfd_ctor, open_bfd_image.
  rewrite filename_nonempty, opens, matches, Hk, Hsect. reflexivity.
Qed.

End Open.

(** C8 on a kernel image without a [.text] section: the constructor
    does not leave through [exit] with a diagnostic, as it does for a
    file that cannot be opened or matched; it reads [filepos] through
    a null section pointer.  With the section at file offset 0x2000 the
    offset 0x2000 is recorded, and for an image that is not a kernel
    the offset is 0. *)
Theorem kernel_image_without_text :
  op_bfd_ctor (Sample.host_with Sample.no_text) Sample.kernel_header
    "vmlinux" [] = Undefined /\
  (exists o,
     op_bfd_ctor (Sample.host_with Sample.vmlinux) Sample.kernel_header
       "vmlinux" [] = Done o /\
     samples_sect_offset o = 0x2000) /\
  (exists o,
     op_bfd_ctor (Sample.host_with Sample.plain) Sample.user_header
       "a.out" [] = Done o /\
     samples_sect_offset o = 0).
Proof.
  split; [|split].
  - apply kernel_without_text_undefined with (abfd := Sample.no_text);
      first [discriminate | reflexivity].
  - destruct (kernel_offset_recorded (Sample.host_with Sample.vmlinux)
                Sample.kernel_header "vmlinux" [] Sample.vmlinux
                ltac:(discriminate) eq_refl eq_refl Sample.kernel_text
                eq_refl eq_refl) as (o & Ho & _ & Hoff).
    exists o. split; [exact Ho|]. rewrite Hoff. reflexivity.
  - destruct (user_offset_zero (Sample.host_with Sample.plain)
                Sample.user_header "a.out" [] Sample.plain
                ltac:(discriminate) eq_refl eq_refl eq_refl)
      as (o & Ho & _ & Hoff).
    exists o. split; [exact Ho|exact Hoff].
Qed.

(** ** Line numbers *)

Section LineNumbers.

Variables (b : op_bfd) (sym_idx : nat) (s : op_bfd_symbol) (offset : Z).

Hypothesis in_table : syms b !! sym_idx = Some s.

Let section := sym_section (symbol s).
Let lookup := bfd_find_nearest_line (ibfd b) section.
Let pc := pc_of s offset.

(** Past the rejections: the first lookup, then either the answer or
    the work-around. *)
Lemma get_linenr_looks_up name :
  sym_name (symbol s) = Some name ->
  allocated s ->
  pc < sec_size section ->
  get_linenr b sym_idx offset =
    let r := lookup pc in
    if first_linenr r =? 0
    then after_probe pc
           (scan_for_linenr lookup (Some name) pc (sec_size section)
              (first_verdict name r))
    else ([pc],
          Done (mk_linenr_result (first_verdict name r) (first_filename r)
                  (first_linenr r))).
Proof.
  intros Hname Halloc Hpc. unfold get_linenr, sym_offset. rewrite in_table.
  cbn. fold section.
  destruct (Z.eqb_spec (Z.land (sec_flags section) SEC_ALLOC) 0) as [E|_];
    [contradiction|].
  change (to_u64 _) with pc.
  destruct (Z.geb_spec pc (sec_size section)); [lia|].
  fold lookup. rewrite Hname.
  unfold first_linenr, first_filename, first_verdict, first_usable.
  destruct (bool_decide (nl_filename (lookup pc) = None)); cbn;
    [reflexivity|].
  destruct (nl_found (lookup pc)); cbn; [|reflexivity].
  destruct (nl_functionname (lookup pc)) as [f|]; cbn; [|reflexivity].
  destruct (strcmp f name =? 0); reflexivity.
Qed.

End LineNumbers.

(** ** The forward scan *)

Section ForwardScan.

Variables (lookup : Z -> nearest_line) (name : string) (pc : Z).

Let at_probe (j : Z) : nearest_line := lookup (to_u64 (pc + j)).

Lemma probe_addresses_length i k : length (probe_addresses pc i k) = k.
Proof. revert i. induction k as [|k IH]; intros i; cbn; [|rewrite IH]; reflexivity. Qed.

Lemma probe_addresses_elem i k p :
  p ∈ probe_addresses pc i k ->
  exists j, i <= j < i + Z.of_nat k /\ p = to_u64 (pc + j).
Proof.
  revert i. induction k as [|k IH]; intros i Hp; cbn in Hp; [inversion Hp|].
  apply elem_of_cons in Hp as [->|Hp].
  - exists i. split; [lia|reflexivity].
  - destruct (IH _ Hp) as (j & Hj & ->). exists j. split; [lia|reflexivity].
Qed.

(** One round of the scan: a probe is taken, is undefined, or is passed
    over. *)
Lemma scan_forward_step n i :
  scan_forward lookup (Some name) pc (S n) i =
    let p := at_probe i in
    if bool_decide (accepts name p)
    then ([to_u64 (pc + i)], Done (Some (probe_result p)))
    else if bool_decide (nameless p)
    then ([to_u64 (pc + i)], Undefined)
    else after_probe (to_u64 (pc + i))
           (scan_forward lookup (Some name) pc n (i + 1)).
Proof.
  cbn [scan_forward]. cbn zeta. fold (at_probe i).
  unfold accepts, nameless, probe_result.
  destruct (nl_found (at_probe i)) eqn:Hf; cbn.
  2:{ rewrite !bool_decide_eq_false_2 by (intros [? _]; discriminate).
      reflexivity. }
  destruct (Z.eqb_spec (nl_line (at_probe i)) 0) as [Hl|Hl]; cbn.
  { rewrite !bool_decide_eq_false_2 by (intros (_ & ? & _); contradiction).
    reflexivity. }
  destruct (nl_functionname (at_probe i)) as [f|] eqn:Hn; cbn.
  - rewrite (bool_decide_eq_false_2 (_ /\ _ /\ Some f = None))
      by (intros (_ & _ & ?); discriminate).
    destruct (Z.eqb_spec (strcmp f name) 0) as [E|N].
    + apply strcmp_eq in E as ->.
      rewrite bool_decide_eq_true_2 by auto. reflexivity.
    + rewrite bool_decide_eq_false_2; [reflexivity|].
      intros (_ & _ & [= ->]). apply N. now apply strcmp_eq.
  - rewrite bool_decide_eq_false_2 by (intros (_ & _ & ?); discriminate).
    rewrite bool_decide_eq_true_2 by auto. reflexivity.
Qed.

(** The scan of [n] addresses from [pc + i] on: it has probed [k]
    successive addresses, passed over all but the last of them, and
    either ran through, took the last probe, or was undefined on it. *)
Lemma scan_forward_spec n :
  forall i,
  exists k : nat,
    (k <= n)%nat /\
    (scan_forward lookup (Some name) pc n i).1 = probe_addresses pc i k /\
    (forall j, i <= j < i + Z.of_nat k - 1 ->
       ~ accepts name (at_probe j) /\ ~ nameless (at_probe j)) /\
    ((scan_forward lookup (Some name) pc n i).2 = Done None /\ k = n /\
     (forall j, i <= j < i + Z.of_nat n ->
        ~ accepts name (at_probe j) /\ ~ nameless (at_probe j))
     \/
     ((1 <= k)%nat /\
      accepts name (at_probe (i + Z.of_nat k - 1)) /\
      (scan_forward lookup (Some name) pc n i).2
      = Done (Some (probe_result (at_probe (i + Z.of_nat k - 1)))))
     \/
     ((1 <= k)%nat /\
      nameless (at_probe (i + Z.of_nat k - 1)) /\
      (scan_forward lookup (Some name) pc n i).2 = Undefined)).
Proof.
  induction n as [|n IH]; intros i.
  - exists 0%nat. cbn. split; [lia|]. split; [reflexivity|].
    split; [intros; lia|]. left. repeat split; intros; lia.
  - rewrite scan_forward_step. cbn zeta.
    destruct (bool_decide (accepts name (at_probe i))) eqn:Ha.
    { apply bool_decide_eq_true_1 in Ha. exists 1%nat. cbn.
      split; [lia|]. split; [reflexivity|]. split; [intros; lia|].
      right. left. replace (i + Z.of_nat 1 - 1) with i by lia.
      repeat split; [lia|apply Ha..]. }
    apply bool_decide_eq_false_1 in Ha.
    destruct (bool_decide (nameless (at_probe i))) eqn:Hn.
    { apply bool_decide_eq_true_1 in Hn. exists 1%nat. cbn.
      split; [lia|]. split; [reflexivity|]. split; [intros; lia|].
      right. right. replace (i + Z.of_nat 1 - 1) with i by lia.
      repeat split; [lia|apply Hn..]. }
    apply bool_decide_eq_false_1 in Hn.
    destruct (IH (i + 1)) as (k & Hk & Ht & Hpass & Hend).
    exists (S k). cbn [after_probe fst snd probe_addresses].
    split; [lia|]. split; [now rewrite Ht|].
    assert (forall j, i <= j -> j = i \/ i + 1 <= j) as Hsplit by (intros; lia).
    split.
    { intros j Hj. destruct (Hsplit j ltac:(lia)) as [->|Hj'];
        [auto|apply Hpass; lia]. }
    replace (i + Z.of_nat (S k) - 1) with (i + 1 + Z.of_nat k - 1) by lia.
    destruct Hend as [(Hd & -> & Hnone) | [(Hk1 & Hacc & Hd) | (Hk1 & Hnl & Hd)]].
    + left. split; [exact Hd|]. split; [reflexivity|].
      intros j Hj. destruct (Hsplit j ltac:(lia)) as [->|Hj'];
        [auto|apply Hnone; lia].
    + right. left. split; [lia|]. split; assumption.
    + right. right. split; [lia|]. split; assumption.
Qed.

End ForwardScan.

(** ** The search window *)

Section Window.

Variables (pc section_size : Z).

Hypothesis pc_range : 0 <= pc < 2 ^ 64.
Hypothesis pc_inside : pc < section_size.

Lemma max_search_bound : 1 <= max_search pc section_size <= 16.
Proof.
  unfold max_search, to_u64, wrap.
  destruct (Z.gtb_spec ((pc + 16) mod 2 ^ 64) section_size) as [Hgt|Hle];
    [|lia].
  destruct (Z_lt_le_dec (pc + 16) (2 ^ 64)) as [Hsmall|Hwrap].
  - rewrite Z.mod_small in Hgt by lia. rewrite Z.mod_small by lia. lia.
  - exfalso.
    assert ((pc + 16) mod 2 ^ 64 = pc + 16 - 2 ^ 64) as E.
    { symmetry. apply Z.mod_unique_pos with (q := 1); lia. }
    lia.
Qed.

(** Unless [pc + 16] wraps around, the window is clipped to what is
    left of the section. *)
Lemma max_search_clipped :
  section_size <= 2 ^ 64 - 16 ->
  max_search pc section_size = Z.min 16 (section_size - pc).
Proof.
  intros Hfit. unfold max_search, to_u64, wrap.
  rewrite (Z.mod_small (pc + 16)) by lia.
  destruct (Z.gtb_spec (pc + 16) section_size) as [Hgt|Hle].
  - rewrite Z.mod_small by lia. lia.
  - lia.
Qed.

End Window.

(** C9, as the code has it: on the two immediate rejections (the
    section is not allocated, or the address is at or beyond the extent
    of the section) [get_linenr] returns false without asking for a
    line, with the null pointer for the file name and 0 for the line. *)
Theorem immediate_rejection_null (b : op_bfd) (sym_idx : nat)
  (s : op_bfd_symbol) (offset : Z) :
  syms b !! sym_idx = Some s ->
  ~ allocated s \/ sec_size (sym_section (symbol s)) <= pc_of s offset ->
  get_linenr b sym_idx offset = ([], Done (mk_linenr_result false None 0)).
Proof.
  intros Hs Hrej. unfold get_linenr, sym_offset. rewrite Hs. cbn.
  set (section := sym_section (symbol s)) in *.
  destruct (Z.eqb_spec (Z.land (sec_flags section) SEC_ALLOC) 0) as [E|N];
    [reflexivity|].
  destruct Hrej as [Hrej|Hrej]; [exfalso; apply Hrej; exact N|].
  unfold pc_of in Hrej. fold section in Hrej. cbn zeta in Hrej.
  destruct (Z.geb_spec
              (to_u64 (to_u32 (to_u32 (offset - sec_filepos section)
                               - sym_value (symbol s))
                       + sym_value (symbol s)))
              (sec_size section)); [reflexivity|lia].
Qed.

Lemma immediate_rejection_null_witness :
  syms Sample.cold_image !! 0%nat = Some Sample.cold_entry /\
  ~ allocated Sample.cold_entry /\
  get_linenr Sample.cold_image 0 0x600
  = ([], Done (mk_linenr_result false None 0)).
Proof.
  assert (syms Sample.cold_image !! 0%nat = Some Sample.cold_entry) as Hs
    by reflexivity.
  assert (~ allocated Sample.cold_entry) as Hna
    by (intros H; apply H; reflexivity).
  split; [exact Hs|]. split; [exact Hna|].
  apply (immediate_rejection_null _ _ _ _ Hs). left. exact Hna.
Defined.

(** C9, as stated, fails twice over: a lookup that lands in another
    function is turned down with the file name and the line number of
    that function still in place, and an immediate rejection hands back
    the null pointer, not the empty string. *)
Lemma failure_not_empty_counterexample :
  (exists r,
     (get_linenr (Sample.with_lines Sample.other_function) 0 0x100).2 = Done r /\
     lr_ret r = false /\ lr_filename r = Some "a.c"%string /\ lr_linenr r = 42 /\
     ~ empty_line_info r) /\
  (exists r,
     (get_linenr Sample.cold_image 0 0x600).2 = Done r /\
     lr_ret r = false /\ lr_filename r = None /\ ~ empty_line_info r).
Proof.
  split.
  - exists (mk_linenr_result false (Some "a.c"%string) 42).
    split; [vm_compute; reflexivity|].
    repeat split. intros [H _]. discriminate.
  - exists (mk_linenr_result false None 0).
    split; [vm_compute; reflexivity|].
    repeat split. intros [H _]. discriminate.
Qed.

(** ** The work-around *)

Section WorkAround.

Variables (b : op_bfd) (sym_idx : nat) (s : op_bfd_symbol) (offset : Z).
Variable name : string.

Hypothesis in_table : syms b !! sym_idx = Some s.
Hypothesis named : sym_name (symbol s) = Some name.
Hypothesis loaded : allocated s.
Hypothesis inside : pc_of s offset < sec_size (sym_section (symbol s)).

Let section := sym_section (symbol s).
Let lookup := bfd_find_nearest_line (ibfd b) section.
Let pc := pc_of s offset.
Let window := max_search pc (sec_size section).

Lemma window_bound : 1 <= window <= 16.
Proof. apply max_search_bound; [apply to_u64_range|exact inside]. Qed.

(** A first lookup with a line number is answered at once. *)
Lemma get_linenr_with_line :
  first_linenr (lookup pc) <> 0 ->
  get_linenr b sym_idx offset
  = ([pc],
     Done (mk_linenr_result (first_verdict name (lookup pc))
             (first_filename (lookup pc)) (first_linenr (lookup pc)))).
Proof.
  intros Hline.
  rewrite (get_linenr_looks_up b sym_idx s offset in_table name named loaded
             inside).
  cbn zeta. fold section lookup pc.
  destruct (Z.eqb_spec (first_linenr (lookup pc)) 0); [contradiction|].
  reflexivity.
Qed.

(** A first lookup without one starts the scan: [k] probes at
    [pc + 1], [pc + 2], ..., all but the last passed over; then the
    lookup is repeated at [pc] and the first verdict returned, or the
    last probe is returned, or the last probe has no function name. *)
Lemma get_linenr_scans :
  first_linenr (lookup pc) = 0 ->
  exists k : nat,
    Z.of_nat k < window /\
    (forall j, 1 <= j < Z.of_nat k ->
       ~ accepts name (lookup (to_u64 (pc + j))) /\
       ~ nameless (lookup (to_u64 (pc + j)))) /\
    ((Z.of_nat k = window - 1 /\
      (forall j, 1 <= j < window ->
         ~ accepts name (lookup (to_u64 (pc + j))) /\
         ~ nameless (lookup (to_u64 (pc + j)))) /\
      get_linenr b sym_idx offset
      = (pc :: probe_addresses pc 1 k ++ [pc],
         Done (mk_linenr_result (first_verdict name (lookup pc))
                 (nl_filename (lookup pc)) (nl_line (lookup pc)))))
     \/
     ((1 <= k)%nat /\
      accepts name (lookup (to_u64 (pc + Z.of_nat k))) /\
      get_linenr b sym_idx offset
      = (pc :: probe_addresses pc 1 k,
         Done (probe_result (lookup (to_u64 (pc + Z.of_nat k))))))
     \/
     ((1 <= k)%nat /\
      nameless (lookup (to_u64 (pc + Z.of_nat k))) /\
      get_linenr b sym_idx offset
      = (pc :: probe_addresses pc 1 k, Undefined))).
Proof.
  intros Hline.
  rewrite (get_linenr_looks_up b sym_idx s offset in_table name named loaded
             inside).
  cbn zeta. fold section lookup pc. rewrite Hline. cbn [Z.eqb].
  unfold scan_for_linenr. fold window.
  pose proof window_bound as Hw.
  destruct (scan_forward_spec lookup name pc (Z.to_nat (window - 1)) 1)
    as (k & Hk & Ht & Hpass & Hend).
  destruct (scan_forward lookup (Some name) pc (Z.to_nat (window - 1)) 1)
    as [t o]. cbn [fst snd] in *. subst t.
  exists k. split; [lia|].
  split; [intros j Hj; apply Hpass; lia|].
  replace (1 + Z.of_nat k - 1) with (Z.of_nat k) in Hend by lia.
  destruct Hend as [(-> & -> & Hnone) | [(Hk1 & Hacc & ->) | (Hk1 & Hnl & ->)]].
  - left. split; [lia|]. split; [intros j Hj; apply Hnone; lia|]. reflexivity.
  - right. left. auto.
  - right. right. auto.
Qed.

(** Unless [pc + 16] wraps around, every probe stays inside the
    section. *)
Lemma probes_inside k p :
  sec_size section <= 2 ^ 64 - 16 ->
  Z.of_nat k < window ->
  p ∈ probe_addresses pc 1 k ->
  pc < p < sec_size section.
Proof.
  intros Hfit Hk Hp.
  apply probe_addresses_elem in Hp as (j & Hj & ->).
  pose proof (to_u64_range (to_u32 (to_u32 (offset - sec_filepos section)
                                    - sym_value (symbol s))
                            + sym_value (symbol s))) as Hpc.
  change (to_u64 _) with pc in Hpc.
  unfold window in Hk.
  rewrite max_search_clipped in Hk by (assumption || exact inside).
  rewrite to_u64_small by lia. fold section in inside. lia.
Qed.

End WorkAround.

(** C6, as the code has it: [get_linenr] returns true only on the
    first lookup, when that was found with a file name and with a
    function name that is null or the name of the symbol, or on one of
    the at most 15 probes that follow, when it was found with a line
    number and under the name of the symbol; and a first lookup that
    was found with a file name, a line number and the name of another
    function is turned down: [get_linenr] returns false. *)
Theorem function_name_guard (b : op_bfd) (sym_idx : nat) (s : op_bfd_symbol)
  (offset : Z) (name : string) :
  syms b !! sym_idx = Some s ->
  sym_name (symbol s) = Some name ->
  allocated s ->
  pc_of s offset < sec_size (sym_section (symbol s)) ->
  let lookup := bfd_find_nearest_line (ibfd b) (sym_section (symbol s)) in
  let pc := pc_of s offset in
  (forall trace r,
     get_linenr b sym_idx offset = (trace, Done r) ->
     lr_ret r = true ->
     (nl_found (lookup pc) = true /\
      nl_filename (lookup pc) <> None /\
      (nl_functionname (lookup pc) = None \/
       nl_functionname (lookup pc) = Some name))
     \/
     (exists j,
        1 <= j < 16 /\
        accepts name (lookup (to_u64 (pc + j))) /\
        r = probe_result (lookup (to_u64 (pc + j))))) /\
  (forall f,
     nl_found (lookup pc) = true ->
     nl_filename (lookup pc) <> None ->
     nl_line (lookup pc) <> 0 ->
     nl_functionname (lookup pc) = Some f ->
     f <> name ->
     get_linenr b sym_idx offset
     = ([pc],
        Done (mk_linenr_result false (nl_filename (lookup pc))
                (nl_line (lookup pc))))).
Proof.
  intros Hs Hname Halloc Hpc lookup pc.
  assert (forall r0, first_verdict name r0 = true ->
            nl_found r0 = true /\ nl_filename r0 <> None /\
            (nl_functionname r0 = None \/ nl_functionname r0 = Some name))
    as Hverdict.
  { intros r0. unfold first_verdict, first_usable.
    rewrite !andb_true_iff, negb_true_iff. intros [[Hfn Hfound] Hfun].
    apply bool_decide_eq_false_1 in Hfn.
    repeat split; [assumption..|].
    destruct (nl_functionname r0) as [f|]; [right|now left].
    apply Z.eqb_eq, strcmp_eq in Hfun. now subst. }
  split.
  - intros trace r Hget Hret.
    destruct (Z.eq_dec (first_linenr (lookup pc)) 0) as [Hzero|Hline].
    + destruct (get_linenr_scans b sym_idx s offset name Hs Hname Halloc Hpc
                  Hzero) as (k & Hk & _ & Hend).
      pose proof (window_bound s offset Hpc) as Hw. fold pc in Hw.
      fold lookup pc in Hend, Hk.
      destruct Hend as [(_ & _ & E) | [(Hk1 & Hacc & E) | (_ & _ & E)]];
        rewrite E in Hget.
      * injection Hget as _ <-. cbn in Hret. left. now apply Hverdict.
      * injection Hget as _ <-. right. exists (Z.of_nat k).
        split; [lia|]. split; [exact Hacc|reflexivity].
      * discriminate.
    + rewrite (get_linenr_with_line b sym_idx s offset name Hs Hname Halloc
                 Hpc Hline) in Hget.
      injection Hget as _ <-. cbn in Hret. left. now apply Hverdict.
  - intros f Hfound Hfile Hline Hfun Hne.
    assert (first_usable (lookup pc) = true) as Hus.
    { unfold first_usable. rewrite Hfound, bool_decide_eq_false_2 by assumption.
      reflexivity. }
    assert (first_linenr (lookup pc) = nl_line (lookup pc)) as Hl
      by (unfold first_linenr; now rewrite Hus).
    rewrite (get_linenr_with_line b sym_idx s offset name Hs Hname Halloc Hpc)
      by (fold lookup pc; now rewrite Hl).
    fold lookup pc. rewrite Hl. unfold first_filename, first_verdict.
    rewrite Hus, Hfun. cbn.
    destruct (Z.eqb_spec (strcmp f name) 0) as [E|_]; [|reflexivity].
    apply strcmp_eq in E. contradiction.
Qed.

Lemma function_name_guard_witness :
  syms (Sample.with_lines Sample.other_function) !! 0%nat
  = Some Sample.main_entry /\
  get_linenr (Sample.with_lines Sample.other_function) 0 0x100
  = ([0], Done (mk_linenr_result false (Some "a.c"%string) 42)).
Proof.
  assert (syms (Sample.with_lines Sample.other_function) !! 0%nat
          = Some Sample.main_entry) as Hs by reflexivity.
  split; [exact Hs|].
  destruct (function_name_guard (Sample.with_lines Sample.other_function) 0
              Sample.main_entry 0x100 "main" Hs eq_refl) as [_ H].
  - intros E. vm_compute in E. discriminate.
  - vm_compute. reflexivity.
  - apply (H "other"%string); first [reflexivity | discriminate].
Defined.

(** C6, as stated, fails on a lookup that reports no function name at
    all: it is taken, although no function name equal to the name of
    the symbol was reported. *)
Lemma null_function_name_counterexample :
  get_linenr (Sample.with_lines Sample.no_function) 0 0x100
  = ([0], Done (mk_linenr_result true (Some "a.c"%string) 5)) /\
  nl_functionname (Sample.no_function Sample.text 0) <> Some "main"%string.
Proof. split; [vm_compute; reflexivity|discriminate]. Qed.

(** C7 on a scan that meets a probe with a line number and no function
    name: the first lookup at the start of [main] has no line, the
    probe at the next address is handed, with its null function name,
    to [strcmp], and the probe after it, which has [main] and a line
    number, is never reached.  The first lookup checks the function
    name for null before it compares; the scan does not.  Without such
    a probe the scan does return at the first probe it can take. *)
Theorem nameless_probe_undefined :
  get_linenr (Sample.with_lines Sample.gap_then_no_function) 0 0x100
  = ([0; 1], Undefined) /\
  nameless (Sample.gap_then_no_function Sample.text 1) /\
  accepts "main" (Sample.gap_then_no_function Sample.text 2) /\
  get_linenr (Sample.with_lines Sample.gap_of_two) 0 0x100
  = ([0; 1; 2; 3], Done (mk_linenr_result true (Some "a.c"%string) 8)).
Proof.
  split; [vm_compute; reflexivity|].
  split; [repeat split; discriminate|].
  split; [repeat split; discriminate|].
  vm_compute. reflexivity.
Qed.

(** * More of op_bfd.cpp *)

(** ** [have_debug_info] *)

Section DebugInfo.

Variable SEC_DEBUGGING : Z.

Let flagged (s : asection) : Prop := Z.land (sec_flags s) SEC_DEBUGGING <> 0.

Lemma first_debugging_section_nil sections :
  first_debugging_section SEC_DEBUGGING sections = []
  <-> Forall (fun s => ~ flagged s) sections.
Proof.
  induction sections as [|s next IH]; cbn.
  - split; [constructor|reflexivity].
  - destruct (Z.eqb_spec (Z.land (sec_flags s) SEC_DEBUGGING) 0) as [E|N]; cbn.
    + rewrite IH. split.
      * intros H. constructor; [unfold flagged; lia|exact H].
      * intros H. now inversion H.
    + split; [discriminate|]. intros H. inversion H. contradiction.
Qed.

Lemma first_debugging_section_head sections s rest :
  first_debugging_section SEC_DEBUGGING sections = s :: rest ->
  flagged s /\ s ∈ sections.
Proof.
  induction sections as [|t next IH]; cbn; [discriminate|].
  destruct (Z.eqb_spec (Z.land (sec_flags t) SEC_DEBUGGING) 0) as [E|N]; cbn.
  - intros H. destruct (IH H) as [Hf Hin]. split; [exact Hf|now right].
  - intros [= -> _]. split; [exact N|left].
Qed.

End DebugInfo.

(** X1: [have_debug_info] answers true exactly when some section of the
    image carries the debugging flag, so never for an image without
    sections, and the answer does not depend on the order of the
    section list. *)
Theorem have_debug_info_exact (SEC_DEBUGGING : Z) (b : op_bfd) :
  (have_debug_info SEC_DEBUGGING b = true
   <-> exists s, s ∈ bfd_sections (ibfd b) /\
                 Z.land (sec_flags s) SEC_DEBUGGING <> 0) /\
  (bfd_sections (ibfd b) = [] -> have_debug_info SEC_DEBUGGING b = false) /\
  (forall b' : op_bfd,
     bfd_sections (ibfd b) ≡ₚ bfd_sections (ibfd b') ->
     have_debug_info SEC_DEBUGGING b = have_debug_info SEC_DEBUGGING b').
Proof.
  assert (forall x : op_bfd,
            have_debug_info SEC_DEBUGGING x = true
            <-> exists s, s ∈ bfd_sections (ibfd x) /\
                          Z.land (sec_flags s) SEC_DEBUGGING <> 0) as Hiff.
  { intros x. unfold have_debug_info.
    pose proof (first_debugging_section_nil SEC_DEBUGGING
                  (bfd_sections (ibfd x))) as Hnil.
    destruct (first_debugging_section SEC_DEBUGGING (bfd_sections (ibfd x)))
      as [|s rest] eqn:E.
    - split; [discriminate|]. intros (s & Hin & Hflag).
      destruct Hnil as [Hnil _]. specialize (Hnil eq_refl).
      rewrite Forall_forall in Hnil. exfalso. exact (Hnil s Hin Hflag).
    - split; [intros _|reflexivity].
      destruct (first_debugging_section_head SEC_DEBUGGING _ _ _ E)
        as [Hflag Hin].
      exists s. split; assumption. }
  split; [apply Hiff|]. split.
  - intros Hempty. unfold have_debug_info. now rewrite Hempty.
  - intros b' Hperm.
    destruct (have_debug_info SEC_DEBUGGING b) eqn:Eb,
             (have_debug_info SEC_DEBUGGING b') eqn:Eb'; try reflexivity.
    + apply Hiff in Eb as (s & Hin & Hflag). rewrite Hperm in Hin.
      rewrite <- Eb'. symmetry. apply Hiff. eauto.
    + apply Hiff in Eb' as (s & Hin & Hflag). rewrite <- Hperm in Hin.
      rewrite <- Eb. apply Hiff. eauto.
Qed.

(** ** What [get_symbols] puts into the vector *)

Section Built.

Variables (ibfd : bfd) (nr : Z) (excluded : list string).

Let bfd_syms := bfd_symtab ibfd.




(** An entry after the size loop: a candidate of the image at its
    computed address, with a size that fits 32 bits. *)
Lemma sized_symbols_entry e :
  e ∈ sized_symbols bfd_syms nr ->
  symbol e ∈ bfd_syms /\
  interesting_symbol (symbol e) = true /\
  vma e = symbol_vma (symbol e) /\
  0 <= size e < 2 ^ 32.
Proof.
  intros He. apply list_elem_of_lookup in He as [i Hi].
  unfold sized_symbols in Hi.
  apply fill_sizes_lookup_Some in Hi as (s & sz & Hs & Hsz & ->).
  apply list_elem_of_lookup_2 in Hs. rewrite stable_sort_perm in Hs.
  rewrite collect_symbols_filter in Hs.
  apply list_elem_of_fmap in Hs as (sym & -> & Hsym).
  apply list_elem_of_filter in Hsym as [Hint Hin].
  cbn. repeat split; try assumption.
  - unfold size_at in Hsz. destruct (_ !! i); cbn in Hsz; [|discriminate].
    injection Hsz as <-. apply to_u32_range.
  - unfold size_at in Hsz. destruct (_ !! i); cbn in Hsz; [|discriminate].
    injection Hsz as <-. apply to_u32_range.
Qed.

Lemma final_symbols_entry e :
  e ∈ final_symbols bfd_syms nr excluded ->
  e ∈ sized_symbols bfd_syms nr /\ not_excluded excluded e.
Proof.
  rewrite final_symbols_filter. intros He.
  apply list_elem_of_filter in He as [Hex He]. split; [|exact Hex].
  rewrite unique_symbols_unique in He. now apply unique_by_vma_subseteq.
Qed.


End Built.


(** X3: every entry of the vector that [get_symbols] leaves is an
    interesting symbol of the image's symbol table, stands at that
    symbol's value plus the address of its section (as a [bfd_vma]),
    has a size below 2^32, and bears no excluded name; the vector has
    no more entries than the image has symbols. *)
Theorem get_symbols_entries (ibfd : bfd) (nr : Z) (excluded : list string) :
  let table := (get_symbols ibfd nr excluded).2 in
  (forall e, e ∈ table ->
     symbol e ∈ bfd_symtab ibfd /\
     interesting_symbol (symbol e) = true /\
     vma e = to_u64 (sym_value (symbol e) + sec_vma (sym_section (symbol e))) /\
     0 <= size e < 2 ^ 32 /\
     is_excluded_symbol excluded (sym_name (symbol e)) = false) /\
  (length table <= length (bfd_symtab ibfd))%nat.
Proof.
  intros table. unfold table.
  destruct (get_symbols_table ibfd nr excluded) as [-> | ->].
  - split; [intros e He; inversion He|cbn; lia].
  - split.
    + intros e He. apply final_symbols_entry in He as [He Hex].
      apply sized_symbols_entry in He as (Hin & Hint & Hvma & Hsize).
      repeat split; assumption || apply Hsize.
    + rewrite final_symbols_filter.
      etransitivity; [apply length_filter|].
      rewrite unique_symbols_unique.
      assert (forall l, (length (unique_by_vma l) <= length l)%nat) as Hle.
      { intros [|first rest]; [reflexivity|]. cbn [unique_by_vma].
        revert first. induction rest as [|cur rest IH]; intros first; cbn;
          [lia|].
        destruct (vma cur =? vma first);
          [specialize (IH first)|specialize (IH cur)]; cbn in *; lia. }
      etransitivity; [apply Hle|].
      unfold sized_symbols. rewrite fill_sizes_length.
      rewrite (Permutation_length (stable_sort_perm _)).
      rewrite collect_symbols_filter, length_fmap. apply length_filter.
Qed.



(** ** Looking symbols up by name *)

Section ByName.

Variables (ibfd : bfd) (nr off : Z) (excluded : list string).

Let b := mk_op_bfd ibfd (get_symbols ibfd nr excluded).2 nr off.

Lemma built_named : Forall (fun e => is_Some (sym_name (symbol e))) (syms b).
Proof.
  cbn [syms b].
  destruct (get_symbols_table ibfd nr excluded) as [-> | ->];
    [constructor|apply final_symbols_named].
Qed.

Lemma built_not_excluded e : e ∈ syms b -> not_excluded excluded e.
Proof.
  cbn [syms b].
  destruct (get_symbols_table ibfd nr excluded) as [-> | ->];
    [intros He; inversion He|].
  intros He. now apply final_symbols_entry in He as [_ ?].
Qed.

End ByName.

(** X5: on the vector built by [get_symbols], looking up the name of
    the entry at index [i] finds an entry of that name at an index not
    after [i], and at [i] itself when no two entries share a name. *)
Theorem symbol_index_round_trip (ibfd : bfd) (nr off : Z)
  (excluded : list string) (i : nat) (e : op_bfd_symbol) (n : string) :
  let b := mk_op_bfd ibfd (get_symbols ibfd nr excluded).2 nr off in
  syms b !! i = Some e ->
  entry_name e = Some n ->
  exists j : nat,
    symbol_index b n = Some (Z.of_nat j) /\
    (j <= i)%nat /\
    entry_name <$> syms b !! j = Some (Some n) /\
    (NoDup (entry_name <$> syms b) -> j = i).
Proof.
  intros b Hi Hn.
  destruct (symbol_index_from_present (syms b) n 0
              (built_named ibfd nr off excluded))
    as (j & e0 & Hidx & Hj & Hn0 & Hfirst).
  { exists e. split; [eapply list_elem_of_lookup_2; exact Hi|exact Hn]. }
  exists j. split; [exact Hidx|].
  assert (j <= i)%nat as Hle.
  { destruct (le_lt_dec j i) as [?|Hlt]; [assumption|].
    exfalso. exact (Hfirst i e Hlt Hi Hn). }
  split; [exact Hle|]. split.
  - rewrite Hj. cbn. unfold entry_name. now rewrite Hn0.
  - intros Hnd. eapply (NoDup_lookup _ j i (Some n) Hnd).
    + rewrite list_lookup_fmap, Hj. cbn. unfold entry_name. now rewrite Hn0.
    + rewrite list_lookup_fmap, Hi. cbn. now rewrite Hn.
Qed.

Lemma symbol_index_round_trip_witness :
  syms Sample.plain_image !! 1%nat = Some Sample.helper_entry /\
  symbol_index Sample.plain_image "helper" = Some 1.
Proof.
  assert (syms Sample.plain_image !! 1%nat = Some Sample.helper_entry) as Hs
    by reflexivity.
  split; [exact Hs|].
  destruct (symbol_index_round_trip Sample.plain Sample.file_size 0 [] 1
              Sample.helper_entry "helper" Hs eq_refl)
    as (j & Hidx & _ & _ & Hsame).
  rewrite (Hsame ltac:(vm_compute; repeat constructor;
                       rewrite ?list_elem_of_In; cbn; intuition discriminate))
    in Hidx.
  exact Hidx.
Defined.

(** X6: on the vector built by [get_symbols], [symbol_index] is always
    defined; it answers [nil_symbol_index] for a name that no entry
    bears, in particular for every excluded name, and otherwise an
    index inside the vector. *)
Theorem symbol_index_total (ibfd : bfd) (nr off : Z) (excluded : list string)
  (n : string) :
  let b := mk_op_bfd ibfd (get_symbols ibfd nr excluded).2 nr off in
  exists r,
    symbol_index b n = Some r /\
    (r = nil_symbol_index \/ 0 <= r < Z.of_nat (length (syms b))) /\
    ((forall e, e ∈ syms b -> entry_name e <> Some n) ->
     r = nil_symbol_index) /\
    (n ∈ excluded -> r = nil_symbol_index).
Proof.
  intros b.
  pose proof (built_named ibfd nr off excluded) as Hnamed. fold b in Hnamed.
  assert ((forall e, e ∈ syms b -> entry_name e <> Some n) ->
          symbol_index b n = Some nil_symbol_index) as Habsent.
  { intros Hnone. now apply symbol_index_from_absent. }
  assert (n ∈ excluded -> forall e, e ∈ syms b -> entry_name e <> Some n)
    as Hexcl.
  { intros Hin e He Hname.
    pose proof (built_not_excluded ibfd nr off excluded e He) as Hne.
    unfold not_excluded, entry_name in *. rewrite Hname in Hne. cbn in Hne.
    apply not_true_iff_false in Hne. apply Hne.
    apply existsb_exists. exists n. split; [|apply String.eqb_refl].
    now apply list_elem_of_In. }
  destruct (decide (Exists (fun e => entry_name e = Some n) (syms b)))
    as [Hyes|Hno].
  - apply Exists_exists in Hyes as (e & He & Hname).
    destruct (symbol_index_from_present (syms b) n 0 Hnamed
                (ex_intro _ e (conj He Hname)))
      as (j & e0 & Hidx & Hj & Hn0 & _).
    exists (0 + Z.of_nat j). split; [exact Hidx|].
    apply lookup_lt_Some in Hj. split; [right; lia|].
    split.
    + intros Hnone. exfalso. exact (Hnone e He Hname).
    + intros Hin. exfalso. exact (Hexcl Hin e He Hname).
  - assert (forall e, e ∈ syms b -> entry_name e <> Some n) as Hnone.
    { intros e He Hname. apply Hno. apply Exists_exists.
      exists e. split; [exact He|exact Hname]. }
    exists nil_symbol_index. split; [now apply Habsent|].
    split; [now left|]. split; reflexivity.
Qed.

(** X7: a raw sample offset inside the span that [get_symbol_range]
    returns is mapped by [sym_offset] to its distance from the start of
    the span, which is below the length of the span. *)
Theorem sym_offset_inside_span (b : op_bfd) (sym_idx : nat) (start end_ raw : Z) :
  get_symbol_range b sym_idx = Done (start, end_) ->
  start <= raw < end_ ->
  sym_offset b sym_idx raw = Some (raw - start) /\
  0 <= raw - start < end_ - start.
Proof.
  intros Hrange Hraw.
  destruct (syms b !! sym_idx) as [s|] eqn:Hs.
  2:{ unfold get_symbol_range in Hrange. rewrite Hs in Hrange. discriminate. }
  rewrite (get_symbol_range_unfold b sym_idx s Hs) in Hrange.
  destruct (span_start s >=? range_limit b); [discriminate|].
  destruct (span_end s >? range_limit b); [discriminate|].
  destruct (span_start s >? span_end s); [discriminate|].
  injection Hrange as <- <-.
  pose proof (span_start_range s) as Hs0.
  pose proof (span_end_range s) as He0.
  split; [|lia].
  unfold sym_offset. rewrite Hs. cbn. f_equal.
  rewrite to_u32_sub_l.
  rewrite span_start_file_offset in Hraw, Hs0 |- *.
  replace (raw - sec_filepos (sym_section (symbol s)) - sym_value (symbol s))
    with (raw - file_offset s) by (unfold file_offset; lia).
  rewrite <- to_u32_sub_r. apply to_u32_small. lia.
Qed.

Lemma sym_offset_inside_span_witness :
  get_symbol_range Sample.plain_image 1 = Done (0x110, 0x1000) /\
  sym_offset Sample.plain_image 1 0x200 = Some 0xf0.
Proof.
  assert (get_symbol_range Sample.plain_image 1 = Done (0x110, 0x1000)) as Hr
    by reflexivity.
  split; [exact Hr|].
  apply (sym_offset_inside_span Sample.plain_image 1 0x110 0x1000 0x200 Hr).
  vm_compute. split; [discriminate|reflexivity].
Defined.

(** ** How often [get_linenr] asks for a line *)

Section Calls.

Variables (lookup : Z -> nearest_line) (name : cstr) (pc : Z).

Lemma scan_forward_length n :
  forall i, (length (scan_forward lookup name pc n i).1 <= n)%nat.
Proof.
  induction n as [|n IH]; intros i; cbn [scan_forward]; [cbn; lia|].
  cbn zeta. specialize (IH (i + 1)).
  destruct (nl_found _ && negb (nl_line _ =? 0)).
  - destruct (strcmp_ptr _ name) as [c|]; [|cbn; lia].
    destruct (c =? 0); cbn in *; lia.
  - cbn in *. lia.
Qed.

Lemma scan_for_linenr_length section_size ret :
  (length (scan_for_linenr lookup name pc section_size ret).1
   <= S (Z.to_nat (max_search pc section_size - 1)))%nat.
Proof.
  unfold scan_for_linenr.
  pose proof (scan_forward_length
                (Z.to_nat (max_search pc section_size - 1)) 1) as Hlen.
  destruct (scan_forward lookup name pc _ 1) as [probes [[r|]|why|]];
    cbn in *; rewrite ?length_app; cbn; lia.
Qed.

End Calls.

(** X8: whatever the image and the provider of line numbers, one call
    of [get_linenr] asks [bfd_find_nearest_line] at most 17 times: once
    at the address of the sample, at most 15 times in the forward scan
    and once more at the address of the sample; and what it asks first
    is the address of the sample. *)
Theorem get_linenr_call_bound (b : op_bfd) (sym_idx : nat) (offset : Z) :
  let trace := (get_linenr b sym_idx offset).1 in
  (length trace <= 17)%nat /\
  forall s, syms b !! sym_idx = Some s ->
    trace = [] \/ exists rest, trace = pc_of s offset :: rest.
Proof.
  cbn zeta. unfold get_linenr, sym_offset.
  destruct (syms b !! sym_idx) as [s|] eqn:Hs; cbn [mbind option_bind];
    [|split; [cbn; lia|discriminate]].
  set (section := sym_section (symbol s)).
  destruct (Z.land (sec_flags section) SEC_ALLOC =? 0);
    [split; [cbn; lia|intros ? _; now left]|].
  change (to_u64 _) with (pc_of s offset). set (pc := pc_of s offset).
  destruct (Z.geb_spec pc (sec_size section)) as [Hout|Hin];
    [split; [cbn; lia|intros ? _; now left]|].
  set (lookup := bfd_find_nearest_line (ibfd b) section).
  assert (forall (linenr : Z) (checked : option bool) filename,
            let res :=
              match checked with
              | Some ret =>
                  if linenr =? 0
                  then after_probe pc
                         (scan_for_linenr lookup (sym_name (symbol s)) pc
                            (sec_size section) ret)
                  else ([pc], Done (mk_linenr_result ret filename linenr))
              | None => ([pc], Undefined)
              end in
            (length res.1 <= 17)%nat /\ exists rest, res.1 = pc :: rest)
    as Hres.
  { intros linenr checked filename. cbn zeta.
    destruct checked as [ret|]; [|split; [cbn; lia|eauto]].
    destruct (linenr =? 0); [|split; [cbn; lia|eauto]].
    cbn [after_probe fst]. split; [|eauto].
    pose proof (scan_for_linenr_length lookup (sym_name (symbol s)) pc
                  (sec_size section) ret) as Hlen.
    pose proof (max_search_bound pc (sec_size section)
                  (to_u64_range _) Hin) as Hw.
    cbn [length]. lia. }
  destruct (bool_decide (nl_filename (lookup pc) = None) || negb (nl_found (lookup pc)));
    cbn zeta.
  - destruct (Hres 0 (Some false) (Some ""%string)) as [Hlen Hhead].
    split; [exact Hlen|]. intros s' [= <-]. now right.
  - match goal with
    | |- context [match ?c with Some _ => _ | None => _ end] =>
        destruct (Hres (nl_line (lookup pc)) c (nl_filename (lookup pc)))
          as [Hlen Hhead]
    end.
    split; [exact Hlen|]. intros s' [= <-]. now right.
Qed.

(** X9: the forward scan where it is defined.  The first lookup gave no
    line number, the section ends at least 16 below the top of the
    address range, and no address of the window has a line number
    without a function name.  Then [get_linenr] returns: it probes [k]
    addresses, at most 15, from [pc + 1] on, all inside the section;
    either probe [k] is the first that is found with a line number under
    the name of the symbol, and its file and line are returned with
    true; or the whole window, 16 addresses or what is left of the
    section, holds none, the lookup is repeated at [pc], and the verdict
    on the first lookup is returned with what the repeated lookup
    wrote. *)
Theorem prologue_scan (b : op_bfd) (sym_idx : nat) (s : op_bfd_symbol)
  (offset : Z) (name : string) :
  syms b !! sym_idx = Some s ->
  sym_name (symbol s) = Some name ->
  allocated s ->
  let section := sym_section (symbol s) in
  let lookup := bfd_find_nearest_line (ibfd b) section in
  let pc := pc_of s offset in
  pc < sec_size section ->
  sec_size section <= 2 ^ 64 - 16 ->
  first_linenr (lookup pc) = 0 ->
  (forall j, 1 <= j < 16 -> pc + j < sec_size section ->
     ~ nameless (lookup (pc + j))) ->
  exists k : nat,
    (k <= 15)%nat /\
    (forall p, p ∈ probe_addresses pc 1 k -> pc < p < sec_size section) /\
    ((1 <= k)%nat /\
     accepts name (lookup (pc + Z.of_nat k)) /\
     (forall j, 1 <= j < Z.of_nat k -> ~ accepts name (lookup (pc + j))) /\
     get_linenr b sym_idx offset
     = (pc :: probe_addresses pc 1 k,
        Done (probe_result (lookup (pc + Z.of_nat k))))
     \/
     Z.of_nat k = Z.min 16 (sec_size section - pc) - 1 /\
     (forall j, 1 <= j <= Z.of_nat k -> ~ accepts name (lookup (pc + j))) /\
     get_linenr b sym_idx offset
     = (pc :: probe_addresses pc 1 k ++ [pc],
        Done (mk_linenr_result (first_verdict name (lookup pc))
                (nl_filename (lookup pc)) (nl_line (lookup pc))))).
Proof.
  intros Hs Hname Halloc section lookup pc Hin Hfit Hzero Hnamed.
  destruct (get_linenr_scans b sym_idx s offset name Hs Hname Halloc Hin Hzero)
    as (k & Hk & Hpass & Hend).
  fold section lookup pc in Hk, Hpass, Hend.
  pose proof (to_u64_range (to_u32 (to_u32 (offset - sec_filepos section)
                                    - sym_value (symbol s))
                            + sym_value (symbol s))) as Hpc.
  change (to_u64 _) with pc in Hpc.
  rewrite (max_search_clipped pc (sec_size section) Hpc Hin Hfit) in Hk, Hend.
  assert (forall j, 1 <= j <= Z.of_nat k -> to_u64 (pc + j) = pc + j) as Hsmall.
  { intros j Hj. apply to_u64_small. lia. }
  exists k. split; [lia|]. split.
  { intros p Hp.
    apply (probes_inside s offset Hin k p Hfit); [|exact Hp].
    fold section pc.
    rewrite (max_search_clipped pc (sec_size section) Hpc Hin Hfit). exact Hk. }
  destruct Hend as [(Hlast & Hnone & E) | [(Hk1 & Hacc & E) | (Hk1 & Hnl & _)]].
  - right. split; [exact Hlast|]. split; [|exact E].
    intros j Hj. rewrite <- (Hsmall j Hj). apply Hnone. lia.
  - left. rewrite Hsmall in Hacc, E by lia.
    split; [exact Hk1|]. split; [exact Hacc|]. split; [|exact E].
    intros j Hj. rewrite <- (Hsmall j) by lia. apply Hpass. lia.
  - exfalso. rewrite Hsmall in Hnl by lia.
    apply (Hnamed (Z.of_nat k)); [lia|lia|exact Hnl].
Qed.

Lemma prologue_scan_witness :
  syms (Sample.with_lines Sample.gap_of_two) !! 0%nat = Some Sample.main_entry /\
  first_linenr (Sample.gap_of_two Sample.text 0) = 0 /\
  exists k : nat,
    get_linenr (Sample.with_lines Sample.gap_of_two) 0 0x100
    = (0 :: probe_addresses 0 1 k,
       Done (probe_result (Sample.gap_of_two Sample.text (Z.of_nat k)))).
Proof.
  assert (syms (Sample.with_lines Sample.gap_of_two) !! 0%nat
          = Some Sample.main_entry) as Hs by reflexivity.
  split; [exact Hs|]. split; [reflexivity|].
  destruct (prologue_scan (Sample.with_lines Sample.gap_of_two) 0
              Sample.main_entry 0x100 "main" Hs eq_refl)
    as (k & _ & _ & [(_ & _ & _ & E) | (Hk & Hnone & _)]).
  - intros E. vm_compute in E. discriminate.
  - vm_compute. reflexivity.
  - vm_compute. discriminate.
  - reflexivity.
  - intros j _ _ (_ & _ & Hnl). cbn in Hnl. unfold Sample.gap_of_two in Hnl.
    destruct (_ <? 3) in Hnl; discriminate.
  - exists k. exact E.
  - exfalso. change (pc_of Sample.main_entry 256) with 0 in Hk, Hnone.
    change (sec_size _) with 0x400 in Hk.
    change (Z.min 16 (1024 - 0) - 1) with 15 in Hk.
    apply (Hnone 3); [lia|]. repeat split; discriminate.
Defined.

(** ** The two erasing loops on any vector *)

Section Erasing.

Lemma keep_first_neighbours prev rest :
  exists tail,
    keep_first prev rest = prev :: tail /\
    forall i a c,
      (prev :: tail) !! i = Some a -> (prev :: tail) !! S i = Some c ->
      vma a <> vma c.
Proof.
  revert prev. induction rest as [|cur rest IH]; intros prev; cbn [keep_first].
  - exists []. split; [reflexivity|]. intros [|i] a c Ha Hc; discriminate.
  - destruct (Z.eqb_spec (vma cur) (vma prev)) as [Heq|Hne]; [apply IH|].
    destruct (IH cur) as (tail & -> & Hdistinct).
    exists (cur :: tail). split; [reflexivity|].
    intros [|i] a c Ha Hc; cbn in Ha, Hc.
    + injection Ha as <-. injection Hc as <-. congruence.
    + exact (Hdistinct i a c Ha Hc).
Qed.

Lemma keep_first_fixed prev rest :
  (forall i a c,
     (prev :: rest) !! i = Some a -> (prev :: rest) !! S i = Some c ->
     vma a <> vma c) ->
  keep_first prev rest = prev :: rest.
Proof.
  revert prev. induction rest as [|cur rest IH]; intros prev Hdistinct;
    cbn [keep_first]; [reflexivity|].
  destruct (Z.eqb_spec (vma cur) (vma prev)) as [Heq|Hne].
  - exfalso. exact (Hdistinct 0%nat prev cur eq_refl eq_refl (eq_sym Heq)).
  - f_equal. apply IH. intros i a c Ha Hc.
    exact (Hdistinct (S i) a c Ha Hc).
Qed.

Lemma keep_first_sublist prev rest : keep_first prev rest `sublist_of` prev :: rest.
Proof.
  revert prev. induction rest as [|cur rest IH]; intros prev; cbn [keep_first].
  - reflexivity.
  - destruct (vma cur =? vma prev).
    + etransitivity; [apply IH|].
      apply sublist_skip, sublist_cons. reflexivity.
    + apply sublist_skip. apply IH.
Qed.

End Erasing.

(** X10: the duplicate scan on any vector, sorted or not.  It stops
    (more fuel changes nothing), it keeps the first entry and only
    removes entries, afterwards no two neighbours share an address, and
    running it again changes nothing. *)
Theorem drop_duplicates_neighbours (l : list op_bfd_symbol) :
  (forall fuel, (length l < fuel)%nat ->
     drop_duplicates_loop fuel 1 l = drop_duplicates l) /\
  drop_duplicates l `sublist_of` l /\
  head (drop_duplicates l) = head l /\
  (forall i a c,
     drop_duplicates l !! i = Some a -> drop_duplicates l !! S i = Some c ->
     vma a <> vma c) /\
  drop_duplicates (drop_duplicates l) = drop_duplicates l.
Proof.
  split; [intros fuel; apply drop_duplicates_fuel|].
  rewrite !drop_duplicates_unique.
  destruct l as [|first rest]; cbn [unique_by_vma].
  { repeat split; try reflexivity. intros i a c Ha. discriminate. }
  destruct (keep_first_neighbours first rest) as (tail & E & Hdistinct).
  split; [apply keep_first_sublist|].
  rewrite E. split; [reflexivity|]. split; [exact Hdistinct|].
  cbn [unique_by_vma]. now apply keep_first_fixed.
Qed.

(** X11: the exclusion loop on any vector.  It stops, it leaves exactly
    the entries whose name is not in the list, in their order, with the
    entry that follows an erased one examined as well; an empty list
    excludes nothing. *)
Theorem remove_excluded_exact (excluded : list string)
  (l : list op_bfd_symbol) :
  (forall fuel, (length l < fuel)%nat ->
     remove_excluded_loop excluded fuel 0 l = remove_excluded excluded l) /\
  remove_excluded excluded l
  = filter (fun e => is_excluded_symbol excluded (sym_name (symbol e)) = false) l /\
  (forall e, e ∈ remove_excluded excluded l
             <-> e ∈ l /\ is_excluded_symbol excluded (sym_name (symbol e)) = false) /\
  remove_excluded excluded l `sublist_of` l /\
  remove_excluded [] l = l.
Proof.
  split.
  { intros fuel Hfuel. rewrite remove_excluded_filter.
    apply (remove_excluded_loop_filter excluded l fuel [] Hfuel). }
  split; [apply remove_excluded_filter|].
  split; [|split].
  - intros e. rewrite remove_excluded_filter, list_elem_of_filter.
    unfold not_excluded. tauto.
  - rewrite remove_excluded_filter. apply sublist_filter.
  - rewrite remove_excluded_filter. apply filter_all.
    apply Forall_forall. intros e _. unfold not_excluded, is_excluded_symbol.
    now destruct (sym_name (symbol e)).
Qed.

(** ** The constructor *)

Section Constructor.

Variables (h : host) (header : opd_header) (filename : string).
Variable excluded : list string.


(** The constructor, case by case. *)
Lemma op_bfd_ctor_cases :
  op_bfd_ctor h header filename excluded =
    if (String.length filename =? 0)%nat then Exit empty_image_filename
    else
      match bfd_openr h filename with
      | None => Exit bfd_openr_failed
      | Some abfd =>
          if negb (bfd_format_matches abfd) then Exit bfd_format_failure
          else
            let nr := to_u32 (op_get_fsize h filename) in
            let built (off : Z) :=
              Done (mk_opened
                      (mk_op_bfd abfd (get_symbols abfd nr excluded).2 nr off)
                      (negb (op_get_mtime h filename =? mtime header)) off) in
            if is_kernel header then
              match bfd_get_section_by_name abfd ".text" with
              | Some sect => built (to_u32 (sec_filepos sect))
              | None => Undefined
              end
            else built 0
      end.
Proof.
  unfold op_bfd_ctor, open_bfd_image.
  destruct (String.length filename =? 0)%nat; [reflexivity|].
  destruct (bfd_openr h filename) as [abfd|]; [|reflexivity].
  destruct (bfd_format_matches abfd); cbn; [|reflexivity].
  destruct (is_kernel header); [|reflexivity].
  destruct (bfd_get_section_by_name abfd ".text"); reflexivity.
Qed.

End Constructor.



(** X13: the modification time recorded in the sample file decides the
    warning and nothing else.  With another recorded time the
    constructor ends the same way, and where it returns an object, this
    is the same object with the same section offset; the warning is
    raised exactly when the time of the file differs from the recorded
    one. *)
Theorem mtime_mismatch_not_fatal (h : host) (header : opd_header)
  (filename : string) (excluded : list string) (recorded : Z) :
  let header' := mk_opd_header (is_kernel header) recorded in
  (forall why,
     op_bfd_ctor h header filename excluded = Exit why ->
     op_bfd_ctor h header' filename excluded = Exit why) /\
  (op_bfd_ctor h header filename excluded = Undefined ->
   op_bfd_ctor h header' filename excluded = Undefined) /\
  (forall o,
     op_bfd_ctor h header filename excluded = Done o ->
     (mtime_warning o = true <-> op_get_mtime h filename <> mtime header) /\
     exists o',
       op_bfd_ctor h header' filename excluded = Done o' /\
       image o' = image o /\
       samples_sect_offset o' = samples_sect_offset o /\
       (mtime_warning o' = true <-> op_get_mtime h filename <> recorded)).
Proof.
  cbn zeta. rewrite !op_bfd_ctor_cases. cbn [is_kernel mtime].
  assert (forall m, negb (op_get_mtime h filename =? m) = true
                    <-> op_get_mtime h filename <> m) as Hwarn.
  { intros m. rewrite negb_true_iff. apply Z.eqb_neq. }
  destruct (String.length filename =? 0)%nat;
    [repeat split; intros; try discriminate; assumption|].
  destruct (bfd_openr h filename) as [abfd|];
    [|repeat split; intros; try discriminate; assumption].
  destruct (negb (bfd_format_matches abfd));
    [repeat split; intros; try discriminate; assumption|].
  cbn zeta.
  destruct (is_kernel header).
  - destruct (bfd_get_section_by_name abfd ".text") as [sect|];
      [|repeat split; intros; try discriminate; assumption].
    split; [intros; discriminate|]. split; [intros; discriminate|].
    intros o [= <-]. cbn. split; [apply Hwarn|].
    eexists. split; [reflexivity|]. cbn. repeat split; apply Hwarn.
  - split; [intros; discriminate|]. split; [intros; discriminate|].
    intros o [= <-]. cbn. split; [apply Hwarn|].
    eexists. split; [reflexivity|]. cbn. repeat split; apply Hwarn.
Qed.

(** ** Spans of a well laid out image *)

Section Tiling.

Variables (ibfd : bfd) (nr off : Z) (excluded : list string).

Let table := (get_symbols ibfd nr excluded).2.
Let b := mk_op_bfd ibfd table nr off.

Hypothesis distinct : NoDup (vma <$> collect_symbols (bfd_symtab ibfd)).
Hypothesis none_excluded :
  forall sym, sym ∈ bfd_symtab ibfd ->
    is_excluded_symbol excluded (sym_name sym) = false.

Lemma table_contiguous : contiguous nr table.
Proof.
  unfold table.
  destruct (get_symbols_table ibfd nr excluded) as [-> | ->];
    [intros i a Ha; discriminate|].
  rewrite final_symbols_filter, filter_all.
  - rewrite unique_symbols_without_collisions by assumption.
    apply sized_symbols_contiguous.
  - apply Forall_forall. intros e He. unfold not_excluded.
    apply none_excluded.
    rewrite unique_symbols_unique in He. apply unique_by_vma_subseteq in He.
    now apply sized_symbols_entry in He as [? _].
Qed.

End Tiling.

(** X14: an image laid out in order.  No two candidates share an
    address, none is excluded, the entries start below the file size at
    file offsets that ascend along the vector, and file size plus
    section offset fits 32 bits.  Then [get_symbol_range] returns for
    every index, from the file offset of the entry to the file offset
    of the next entry, or to the file size for the last one. *)
Theorem spans_tile (ibfd : bfd) (nr off : Z) (excluded : list string)
  (i : nat) (a : op_bfd_symbol) :
  let table := (get_symbols ibfd nr excluded).2 in
  let b := mk_op_bfd ibfd table nr off in
  NoDup (vma <$> collect_symbols (bfd_symtab ibfd)) ->
  (forall sym, sym ∈ bfd_symtab ibfd ->
     is_excluded_symbol excluded (sym_name sym) = false) ->
  0 <= off -> nr + off < 2 ^ 32 ->
  (forall e, e ∈ table -> 0 <= file_offset e < nr) ->
  (forall j c d, table !! j = Some c -> table !! S j = Some d ->
     file_offset c <= file_offset d) ->
  table !! i = Some a ->
  get_symbol_range b i
  = Done (file_offset a,
          match table !! S i with
          | Some c => file_offset c
          | None => nr
          end).
Proof.
  intros table b Hdistinct Hnone Hoff Hfit Hinside Hasc Ha.
  pose proof (table_contiguous ibfd nr excluded Hdistinct Hnone i a Ha) as Hend.
  fold table in Hend.
  assert (forall e, e ∈ table -> span_start e = file_offset e) as Hstart.
  { intros e He. rewrite span_start_file_offset. apply to_u32_small.
    specialize (Hinside e He). lia. }
  assert (a ∈ table) as Hain by (eapply list_elem_of_lookup_2; exact Ha).
  pose proof (Hinside a Hain) as Hrange.
  assert (span_end a = match table !! S i with
                       | Some c => file_offset c
                       | None => nr
                       end) as Hend'.
  { rewrite Hend. destruct (table !! S i) as [c|] eqn:Hc.
    - apply Hstart. eapply list_elem_of_lookup_2. exact Hc.
    - apply to_u32_small. lia. }
  assert (span_start a <= span_end a <= nr) as Hord.
  { rewrite Hend', (Hstart a Hain). destruct (table !! S i) as [c|] eqn:Hc.
    - pose proof (Hasc i a c Ha Hc).
      assert (c ∈ table) as Hcin by (eapply list_elem_of_lookup_2; exact Hc).
      specialize (Hinside c Hcin). lia.
    - lia. }
  rewrite (get_symbol_range_unfold b i a Ha).
  unfold range_limit. cbn [nr_samples sect_offset b].
  rewrite (to_u32_small (nr + off)) by lia.
  rewrite <- Hend', <- (Hstart a Hain).
  rewrite (Hstart a Hain) in Hord |- *.
  destruct (Z.geb_spec (file_offset a) (nr + off)); [lia|].
  destruct (Z.gtb_spec (span_end a) (nr + off)); [lia|].
  destruct (Z.gtb_spec (file_offset a) (span_end a)); [lia|].
  reflexivity.
Qed.

Lemma spans_tile_witness :
  NoDup (vma <$> collect_symbols (bfd_symtab Sample.plain)) /\
  (get_symbols Sample.plain Sample.file_size []).2 !! 0%nat
  = Some Sample.main_entry /\
  get_symbol_range Sample.plain_image 0 = Done (0x100, 0x110).
Proof.
  assert (NoDup (vma <$> collect_symbols (bfd_symtab Sample.plain))) as Hnd.
  { vm_compute. repeat constructor; rewrite ?list_elem_of_In; cbn; intuition lia. }
  assert ((get_symbols Sample.plain Sample.file_size []).2 !! 0%nat
          = Some Sample.main_entry) as Hs by reflexivity.
  split; [exact Hnd|]. split; [exact Hs|].
  apply (spans_tile Sample.plain Sample.file_size 0 [] 0 Sample.main_entry Hnd).
  - intros sym _. unfold is_excluded_symbol. now destruct (sym_name sym).
  - lia.
  - vm_compute. reflexivity.
  - intros e He. vm_compute in He.
    apply elem_of_cons in He as [-> | He];
      [|apply elem_of_cons in He as [-> | He]; [|inversion He]];
      vm_compute; split; discriminate || reflexivity.
  - intros [|[|j]] c d Hc Hd; vm_compute in Hc, Hd; try discriminate.
    injection Hc as <-. injection Hd as <-. vm_compute. discriminate.
  - exact Hs.
Defined.


(** * op_session.c *)

Module SessionFacts.

Import Session.

Section Runs.

Variables (cfg : config) (w : world).

(** [op_options], case by case. *)
Lemma op_options_run argv0 :
  op_options w argv0 =
    match showvers w, show_version_ends w with
    | true, Some status => ([show_version argv0], exited status)
    | _, _ =>
        match left_over w, sessionname_option w with
        | Some name, _ | None, Some name =>
            (version_shown w argv0, returned name)
        | None, None =>
            (version_shown w argv0
               ++ [diagnostic "op_session: no session name specified !";
                   poptPrintHelp],
             exited EXIT_FAILURE)
        end
    end.
Proof.
  unfold op_options, version_shown.
  destruct (showvers w), (show_version_ends w), (left_over w),
    (sessionname_option w); reflexivity.
Qed.

(** The loop over the entries: the moves up to the first that fails. *)
Lemma move_entries_run dir_name entries :
  move_entries cfg w dir_name entries =
    if decide (Forall (fun d => move_returns w d = 0) entries)
    then (moves_of cfg dir_name entries, returned tt)
    else (moves_of cfg dir_name (up_to_failure w entries)
            ++ [diagnostic
                  ("unable to backup " +:+ OP_SAMPLES_DIR cfg +:+ "/"
                   +:+ default ""%string (last (up_to_failure w entries))
                   +:+ " to directory " +:+ dir_name)],
          exited EXIT_FAILURE).
Proof.
  induction entries as [|d rest IH]; [reflexivity|].
  cbn [move_entries up_to_failure].
  destruct (Z.eqb_spec (move_returns w d) 0) as [Hok|Hbad]; cbn [negb].
  - unfold mbind, prog_bind, act. rewrite IH.
    destruct (decide (Forall (fun d => move_returns w d = 0) rest)) as [Hall|Hnot].
    + rewrite decide_True by (constructor; assumption). reflexivity.
    + rewrite decide_False by (intros H; inversion H; contradiction).
      cbn [app moves_of fmap list_fmap]. do 4 f_equal.
      destruct rest as [|d' rest']; [exfalso; apply Hnot; constructor|].
      cbn [up_to_failure]. destruct (move_returns w d' =? 0); reflexivity.
  - rewrite decide_False by (intros H; inversion H; contradiction).
    reflexivity.
Qed.

Lemma up_to_failure_all entries :
  Forall (fun d => move_returns w d = 0) entries ->
  up_to_failure w entries = entries.
Proof.
  induction 1 as [|d rest Hd _ IH]; [reflexivity|].
  cbn. rewrite (proj2 (Z.eqb_eq _ _) Hd). now rewrite IH.
Qed.

Lemma up_to_failure_prefix entries :
  up_to_failure w entries `prefix_of` entries.
Proof.
  induction entries as [|d rest IH]; [reflexivity|].
  cbn. destruct (move_returns w d =? 0).
  - destruct IH as [k Hk]. exists k. cbn. now rewrite <- Hk.
  - exists rest. reflexivity.
Qed.

(** The directory name fits the buffer that is allocated for it. *)
Lemma dir_name_fits sname :
  let capacity :=
    (String.length (OP_SAMPLES_DIR cfg) + String.length sname + 1)%nat in
  (dir_name ← strcpy capacity (OP_SAMPLES_DIR cfg);
   strcat capacity dir_name sname)
  = ([], returned (OP_SAMPLES_DIR cfg +:+ sname)).
Proof.
  cbn zeta. unfold strcpy, strcat.
  rewrite (proj2 (Nat.leb_le _ _)) by lia.
  unfold mbind, prog_bind, mret, prog_ret.
  rewrite (proj2 (Nat.leb_le _ _)) by lia. reflexivity.
Qed.

(** [op_move_files], case by case. *)
Lemma op_move_files_run sname :
  let dir_name := (OP_SAMPLES_DIR cfg +:+ sname)%string in
  op_move_files cfg w sname =
    if negb (mkdir_returns w dir_name =? 0)
    then ([mkdir dir_name 493;
           diagnostic ("unable to create directory " +:+ dir_name)],
          exited EXIT_FAILURE)
    else
      match directory w with
      | None =>
          ([mkdir dir_name 493; opendir (OP_SAMPLES_DIR cfg);
            diagnostic ("unable to open directory " +:+ OP_SAMPLES_DIR cfg)],
           exited EXIT_FAILURE)
      | Some entries =>
          let '(moved, e) := move_entries cfg w dir_name entries in
          (mkdir dir_name 493 :: opendir (OP_SAMPLES_DIR cfg) :: moved
             ++ match e with returned _ => [closedir] | _ => [] end,
           e)
      end.
Proof.
  cbn zeta. unfold op_move_files.
  pose proof (dir_name_fits sname) as Hfit. cbn zeta in Hfit.
  unfold strcpy, strcat in *.
  rewrite (proj2 (Nat.leb_le _ _)) in * by lia.
  unfold mbind, prog_bind, mret, prog_ret in *.
  rewrite (proj2 (Nat.leb_le _ _)) in * by lia.
  cbn [app]. unfold act.
  destruct (negb (mkdir_returns w _ =? 0)); [reflexivity|].
  destruct (directory w) as [entries|]; [|reflexivity].
  destruct (move_entries cfg w _ entries) as [moved [[]|status|]];
    cbn; rewrite ?app_nil_r; reflexivity.
Qed.

End Runs.

Section Main.

Variables (cfg : config) (w : world).

Lemma main_run argv0 :
  main cfg w argv0 =
    match op_options w argv0 with
    | (before, returned name) =>
        match op_move_files cfg w name with
        | (moving, returned _) =>
            (before ++ [system "op_dump"; sleep 2] ++ moving
               ++ [op_read_lock_file (OP_LOCK_FILE cfg)]
               ++ (if lock_pid w =? 0 then [] else [kill (lock_pid w) SIGHUP]),
             returned 0)
        | (moving, exited status) =>
            (before ++ [system "op_dump"; sleep 2] ++ moving, exited status)
        | (moving, overrun) =>
            (before ++ [system "op_dump"; sleep 2] ++ moving, overrun)
        end
    | (before, exited status) => (before, exited status)
    | (before, overrun) => (before, overrun)
    end.
Proof.
  unfold main, op_signal_daemon.
  destruct (op_options w argv0) as [before [name|status|]]; try reflexivity.
  unfold mbind, prog_bind, act, mret, prog_ret. cbn [app].
  destruct (op_move_files cfg w name) as [moving [[]|status|]];
    try reflexivity.
  destruct (lock_pid w =? 0); cbn; rewrite ?app_nil_r; reflexivity.
Qed.

Lemma moves_of_are_moves dir_name entries :
  filter (fun a => is_move a = true) (moves_of cfg dir_name entries)
  = moves_of cfg dir_name entries.
Proof.
  apply filter_all, Forall_forall. intros a Ha.
  apply list_elem_of_fmap in Ha as (d & -> & _). reflexivity.
Qed.

Lemma no_kill_in_moves dir_name entries pid sig :
  kill pid sig ∉ moves_of cfg dir_name entries.
Proof. intros H. apply list_elem_of_fmap in H as (d & [=] & _). Qed.

Lemma op_options_returned argv0 before name :
  op_options w argv0 = (before, returned name) ->
  before = version_shown w argv0.
Proof.
  rewrite op_options_run.
  destruct (showvers w), (show_version_ends w), (left_over w),
    (sessionname_option w); intros [=]; congruence.
Qed.

Lemma op_options_no_kill argv0 pid sig :
  kill pid sig ∉ (op_options w argv0).1.
Proof.
  rewrite op_options_run. unfold version_shown.
  destruct (showvers w), (show_version_ends w), (left_over w),
    (sessionname_option w); cbn;
    rewrite ?elem_of_cons, ?elem_of_nil; intuition discriminate.
Qed.

Lemma op_move_files_returned name moving u :
  op_move_files cfg w name = (moving, returned u) ->
  exists entries,
    directory w = Some entries /\
    Forall (fun d => move_returns w d = 0) entries /\
    mkdir_returns w (OP_SAMPLES_DIR cfg +:+ name) = 0 /\
    moving
    = mkdir (OP_SAMPLES_DIR cfg +:+ name) 493
        :: opendir (OP_SAMPLES_DIR cfg)
        :: moves_of cfg (OP_SAMPLES_DIR cfg +:+ name) entries ++ [closedir].
Proof.
  rewrite op_move_files_run. cbn zeta.
  destruct (Z.eqb_spec (mkdir_returns w (OP_SAMPLES_DIR cfg +:+ name)) 0)
    as [Hmk|Hmk]; cbn [negb]; [|discriminate].
  destruct (directory w) as [entries|]; [|discriminate].
  rewrite move_entries_run.
  destruct (decide (Forall (fun d => move_returns w d = 0) entries))
    as [Hall|Hnot]; [|discriminate].
  intros [= <-]. exists entries. auto.
Qed.

Lemma op_move_files_no_kill name pid sig :
  kill pid sig ∉ (op_move_files cfg w name).1.
Proof.
  rewrite op_move_files_run. cbn zeta.
  destruct (negb _).
  { cbn. rewrite !elem_of_cons, elem_of_nil. intuition discriminate. }
  destruct (directory w) as [entries|].
  2:{ cbn. rewrite !elem_of_cons, elem_of_nil. intuition discriminate. }
  rewrite move_entries_run.
  destruct (decide _); cbn [fst];
    rewrite !elem_of_cons, !elem_of_app, ?elem_of_cons, ?elem_of_nil;
    pose proof (no_kill_in_moves (OP_SAMPLES_DIR cfg +:+ name) entries pid sig);
    pose proof (no_kill_in_moves (OP_SAMPLES_DIR cfg +:+ name)
                  (up_to_failure w entries) pid sig);
    intuition discriminate.
Qed.

End Main.


(** X16: [op_move_files].  The directory it makes is the samples
    directory followed by the session name, and the buffer allocated
    for that name is never overrun.  If the directory cannot be made
    (when it exists, too) or the samples directory cannot be opened, it
    leaves with [EXIT_FAILURE] and has moved nothing.  Otherwise it
    moves the entries in the order [readdir] gives them, from the
    samples directory to the new one, up to and including the first that
    cannot be moved; it returns exactly when every entry could be moved,
    closing the directory last, and otherwise leaves with
    [EXIT_FAILURE]. *)
Theorem op_move_files_stops (cfg : config) (w : world) (sname : string) :
  let dir_name := (OP_SAMPLES_DIR cfg +:+ sname)%string in
  let run := op_move_files cfg w sname in
  run.2 <> overrun /\
  head run.1 = Some (mkdir dir_name 493) /\
  (mkdir_returns w dir_name <> 0 \/ directory w = None ->
   run.2 = exited EXIT_FAILURE /\
   filter (fun a => is_move a = true) run.1 = []) /\
  (mkdir_returns w dir_name = 0 ->
   forall entries, directory w = Some entries ->
     filter (fun a => is_move a = true) run.1
     = moves_of cfg dir_name (up_to_failure w entries) /\
     (run.2 = returned tt <-> Forall (fun d => move_returns w d = 0) entries) /\
     (run.2 = returned tt -> last run.1 = Some closedir) /\
     (run.2 <> returned tt -> run.2 = exited EXIT_FAILURE /\ closedir ∉ run.1)).
Proof.
  cbn zeta. rewrite op_move_files_run. cbn zeta.
  set (dir_name := (OP_SAMPLES_DIR cfg +:+ sname)%string).
  destruct (Z.eqb_spec (mkdir_returns w dir_name) 0) as [Hmk|Hmk]; cbn [negb].
  2:{ repeat split; try discriminate; try reflexivity; contradiction. }
  destruct (directory w) as [entries|] eqn:Hdir.
  2:{ repeat split; try discriminate; try reflexivity. }
  rewrite move_entries_run.
  destruct (decide (Forall (fun d => move_returns w d = 0) entries))
    as [Hall|Hnot]; cbn [fst snd].
  - split; [discriminate|]. split; [reflexivity|].
    split; [intros [?|?]; [contradiction|discriminate]|].
    intros _ entries' [= <-].
    split.
    { rewrite (app_comm_cons _ _ (opendir _)), (app_comm_cons _ _ (mkdir _ _)).
      rewrite filter_app. cbn [filter]. rewrite !filter_cons.
      rewrite !decide_False by discriminate.
      rewrite moves_of_are_moves, filter_nil, app_nil_r.
      now rewrite up_to_failure_all. }
    split; [split; [intros _; exact Hall|reflexivity]|].
    split.
    + intros _.
      rewrite (app_comm_cons _ _ (opendir _)), (app_comm_cons _ _ (mkdir _ _)).
      apply last_snoc.
    + intros H. contradiction.
  - split; [discriminate|]. split; [reflexivity|].
    split; [intros [?|?]; [contradiction|discriminate]|].
    intros _ entries' [= <-].
    split.
    { rewrite app_nil_r.
      rewrite (app_comm_cons _ _ (opendir _)), (app_comm_cons _ _ (mkdir _ _)).
      rewrite filter_app, !filter_cons.
      rewrite !decide_False by discriminate.
      rewrite moves_of_are_moves, filter_nil, app_nil_r. reflexivity. }
    split; [split; [discriminate|intros H; contradiction]|].
    split; [discriminate|].
    intros _. split; [reflexivity|].
    rewrite app_nil_r. intros Hin.
    apply elem_of_cons in Hin as [?|Hin]; [discriminate|].
    apply elem_of_cons in Hin as [?|Hin]; [discriminate|].
    apply elem_of_app in Hin as [Hin|Hin].
    + apply list_elem_of_fmap in Hin as (d & [=] & _).
    + apply list_elem_of_singleton in Hin. discriminate.
Qed.

(** X17: the daemon is signalled last, by a complete run only.  When
    [main] returns, it returns 0, after [op_dump], the pause, the new
    directory, a move of every entry of the samples directory and the
    reading of the lock file, in this order, and then the signal if the
    lock file gave a pid; and a signal is sent in no other run: always
    [SIGHUP], to the pid of the lock file, which is not 0. *)
Theorem daemon_signalled_last (cfg : config) (w : world) (argv0 : cstr) :
  (forall r, (main cfg w argv0).2 = returned r ->
     r = 0 /\
     exists name entries,
       directory w = Some entries /\
       Forall (fun d => move_returns w d = 0) entries /\
       mkdir_returns w (OP_SAMPLES_DIR cfg +:+ name) = 0 /\
       (main cfg w argv0).1
       = version_shown w argv0
         ++ [system "op_dump"; sleep 2;
             mkdir (OP_SAMPLES_DIR cfg +:+ name) 493;
             opendir (OP_SAMPLES_DIR cfg)]
         ++ moves_of cfg (OP_SAMPLES_DIR cfg +:+ name) entries
         ++ [closedir; op_read_lock_file (OP_LOCK_FILE cfg)]
         ++ (if lock_pid w =? 0 then [] else [kill (lock_pid w) SIGHUP])) /\
  (forall pid sig, kill pid sig ∈ (main cfg w argv0).1 ->
     (main cfg w argv0).2 = returned 0 /\
     pid = lock_pid w /\ pid <> 0 /\ sig = SIGHUP).
Proof.
  rewrite main_run.
  pose proof (op_options_no_kill w argv0) as Hopt.
  destruct (op_options w argv0) as [before [name|status|]] eqn:Hoptions;
    cbn [fst snd] in *.
  2,3: split; [intros r [=]|intros pid sig H; now apply Hopt in H].
  apply op_options_returned in Hoptions as ->.
  pose proof (op_move_files_no_kill cfg w name) as Hmove.
  destruct (op_move_files cfg w name) as [moving [[]|status|]] eqn:Hfiles;
    cbn [fst snd] in *.
  2,3: split; [intros r [=]|];
    intros pid sig H; exfalso;
    rewrite !elem_of_app, !elem_of_cons, elem_of_nil in H;
    destruct H as [H|[[H|[H|[]]]|H]];
    [now apply Hopt in H|discriminate|discriminate|now apply Hmove in H].
  split.
  - intros r [= <-]. split; [reflexivity|].
    apply op_move_files_returned in Hfiles
      as (entries & Hdir & Hall & Hmk & ->).
    exists name, entries. repeat split; try assumption.
    cbn [app]. rewrite <- !app_assoc. reflexivity.
  - intros pid sig H.
    rewrite !elem_of_app, !elem_of_cons in H.
    destruct H as [H|[[H|[H|H]]|[H|[[H|H]|H]]]]; try discriminate.
    + now apply Hopt in H.
    + inversion H.
    + now apply Hmove in H.
    + inversion H.
    + destruct (Z.eqb_spec (lock_pid w) 0) as [Hz|Hnz]; [inversion H|].
      apply list_elem_of_singleton in H. injection H as -> ->. auto.
Qed.

End SessionFacts.
